(** * Russel's Viper: the game core of [src/russels-viper.tsx]

    A shallow embedding of the React component's game logic: the grid,
    the snake, food and obstacle placement by rejection sampling, the tick
    ([moveSnake]), the key handler and the start/pause/resume actions.

    React state is modelled as a record [State].  An event handler reads the
    values captured by its closure at the last render (the _render snapshot_)
    and writes through setters into the _pending_ state; both are explicit
    arguments, so that a read of a value set earlier in the same handler
    still sees the snapshot, as in the source.  [Math.random()] is a stream
    [random : nat -> Q] indexed by the number of calls made so far, and the
    [do ... while] loops carry a bound on their iterations (fuel). *)

From Stdlib Require Import String ZArith QArith Qround List Bool Lia.
Import ListNotations.
Open Scope Z_scope.

(** ** Data model *)

(** [{ x: number; y: number }]; all coordinates in the program are integers. *)
Record Cell : Set := mkCell { x : Z; y : Z }.

(** The direction state has the same shape as a cell. *)
Definition Direction : Set := Cell.

Record GridSize : Set := mkGrid { width : Z; height : Z }.

Definition CELL_SIZE : Z := 20.
Definition INITIAL_SNAKE : list Cell := [mkCell 10 10].
Definition INITIAL_DIRECTION : Direction := mkCell 1 0.

(** The keys of [DIFFICULTIES]. *)
Inductive Difficulty : Set := hard | extreme | nightmare.

Definition speed (d : Difficulty) : Z :=
  match d with hard => 100 | extreme => 80 | nightmare => 60 end.

Definition obstacleCount (d : Difficulty) : nat :=
  match d with hard => 10 | extreme => 15 | nightmare => 20 end%nat.

(** [a.x === b.x && a.y === b.y] *)
Definition sameCell (a b : Cell) : bool := (x a =? x b) && (y a =? y b).

(** The [useState] slots of the component (the snake colour, which only the
    rendering reads, is left out). *)
Record State : Set := mkState {
  snake : list Cell;
  direction : Direction;
  food : Cell;
  obstacles : list Cell;
  gameOver : bool;
  score : Z;
  difficulty : Difficulty;
  gridSize : GridSize;
  isPlaying : bool
}.

Definition setSnake (v : list Cell) (p : State) : State :=
  mkState v (direction p) (food p) (obstacles p) (gameOver p) (score p)
          (difficulty p) (gridSize p) (isPlaying p).
Definition setDirection (v : Direction) (p : State) : State :=
  mkState (snake p) v (food p) (obstacles p) (gameOver p) (score p)
          (difficulty p) (gridSize p) (isPlaying p).
Definition setFood (v : Cell) (p : State) : State :=
  mkState (snake p) (direction p) v (obstacles p) (gameOver p) (score p)
          (difficulty p) (gridSize p) (isPlaying p).
Definition setObstacles (v : list Cell) (p : State) : State :=
  mkState (snake p) (direction p) (food p) v (gameOver p) (score p)
          (difficulty p) (gridSize p) (isPlaying p).
Definition setGameOver (v : bool) (p : State) : State :=
  mkState (snake p) (direction p) (food p) (obstacles p) v (score p)
          (difficulty p) (gridSize p) (isPlaying p).
Definition setScore (v : Z) (p : State) : State :=
  mkState (snake p) (direction p) (food p) (obstacles p) (gameOver p) v
          (difficulty p) (gridSize p) (isPlaying p).
Definition setDifficulty (v : Difficulty) (p : State) : State :=
  mkState (snake p) (direction p) (food p) (obstacles p) (gameOver p) (score p)
          v (gridSize p) (isPlaying p).
Definition setGridSize (v : GridSize) (p : State) : State :=
  mkState (snake p) (direction p) (food p) (obstacles p) (gameOver p) (score p)
          (difficulty p) v (isPlaying p).
Definition setIsPlaying (v : bool) (p : State) : State :=
  mkState (snake p) (direction p) (food p) (obstacles p) (gameOver p) (score p)
          (difficulty p) (gridSize p) v.

(** The initial values given to [useState]. *)
Definition initialState : State :=
  mkState INITIAL_SNAKE INITIAL_DIRECTION (mkCell 15 15) [] false 0 hard
          (mkGrid 0 0) false.

(** [calculateGridSize]: [Math.floor(client / CELL_SIZE)] on each axis. *)
Definition calculateGridSize (clientWidth clientHeight : Z) (p : State) : State :=
  setGridSize (mkGrid (clientWidth / CELL_SIZE) (clientHeight / CELL_SIZE)) p.

(** ** Pure parts of the tick and of the key handler *)

(** The head of the tick: [head + direction], then the four wrap-around
    statements in the order of the source. *)
Definition newHead (g : GridSize) (d : Direction) (c : Cell) : Cell :=
  let hx := x c + x d in
  let hy := y c + y d in
  let hx := if hx <? 0 then width g - 1 else hx in
  let hx := if hx >=? width g then 0 else hx in
  let hy := if hy <? 0 then height g - 1 else hy in
  let hy := if hy >=? height g then 0 else hy in
  mkCell hx hy.

(** The collision test of the tick, against the obstacles and the whole
    snake as it is before the tick. *)
Definition collides (head : Cell) (obs prevSnake : list Cell) : bool :=
  existsb (fun obstacle => sameCell obstacle head) obs
  || existsb (fun segment => sameCell segment head) prevSnake.

(** [handleKeyPress]: the [switch] on [e.key], each case a functional update
    of the direction. *)
Definition handleKeyPress (key : string) (p : State) : State :=
  let prev := direction p in
  if (key =? "ArrowUp")%string then
    setDirection (if y prev =? 0 then mkCell 0 (-1) else prev) p
  else if (key =? "ArrowDown")%string then
    setDirection (if y prev =? 0 then mkCell 0 1 else prev) p
  else if (key =? "ArrowLeft")%string then
    setDirection (if x prev =? 0 then mkCell (-1) 0 else prev) p
  else if (key =? "ArrowRight")%string then
    setDirection (if x prev =? 0 then mkCell 1 0 else prev) p
  else p.

Definition pauseGame (p : State) : State := setIsPlaying false p.
Definition resumeGame (p : State) : State := setIsPlaying true p.

(** ** Computations that draw random numbers *)

(** A computation starts at a number of [Math.random()] calls made so far and
    gives a result and the new number of calls, or nothing when a loop used
    up its iteration bound. *)
Definition M (A : Type) : Type := nat -> option (A * nat).

Definition ret {A : Type} (a : A) : M A := fun k => Some (a, k).

Definition bind {A B : Type} (m : M A) (f : A -> M B) : M B :=
  fun k => match m k with
           | Some (a, k') => f a k'
           | None => None
           end.

Notation "v <- m ;; f" := (bind m (fun v => f))
  (at level 61, m at next level, right associativity).

Section RandomSource.

(** [random k] is what the call number [k] of [Math.random()] returns. *)
Variable random : nat -> Q.

(** [{ x: Math.floor(Math.random() * width), y: Math.floor(Math.random() * height) }] *)
Definition randomCell (g : GridSize) (k : nat) : Cell :=
  mkCell (Qfloor (random k * inject_Z (width g)))
         (Qfloor (random (S k) * inject_Z (height g))).

(** The [do ... while] of [generateFood], on the snake and obstacles of
    the render snapshot. *)
Fixpoint generateFood_loop (fuel : nat) (g : GridSize)
         (snake0 obstacles0 : list Cell) (k : nat) : option (Cell * nat) :=
  match fuel with
  | O => None
  | S fuel' =>
      let newFood := randomCell g k in
      if existsb (fun segment => sameCell segment newFood) snake0
         || existsb (fun obstacle => sameCell obstacle newFood) obstacles0
      then generateFood_loop fuel' g snake0 obstacles0 (2 + k)
      else Some (newFood, (2 + k)%nat)
  end.

(** [generateFood]: reads [gridSize], [snake] and [obstacles] of the
    snapshot [r], sets the food of the pending state. *)
Definition generateFood (fuel : nat) (r p : State) : M State :=
  newFood <- generateFood_loop fuel (gridSize r) (snake r) (obstacles r) ;;
  ret (setFood newFood p).

(** The inner [do ... while] of [generateObstacles]. *)
Fixpoint generateObstacles_loop (fuel : nat) (g : GridSize)
         (snake0 newObstacles : list Cell) (food0 : Cell) (k : nat)
  : option (Cell * nat) :=
  match fuel with
  | O => None
  | S fuel' =>
      let obstacle := randomCell g k in
      if existsb (fun segment => sameCell segment obstacle) snake0
         || existsb (fun obs => sameCell obs obstacle) newObstacles
         || sameCell food0 obstacle
      then generateObstacles_loop fuel' g snake0 newObstacles food0 (2 + k)
      else Some (obstacle, (2 + k)%nat)
  end.

(** The [for] loop of [generateObstacles], with [n] iterations left. *)
Fixpoint generateObstacles_for (fuel n : nat) (g : GridSize)
         (snake0 newObstacles : list Cell) (food0 : Cell) : M (list Cell) :=
  match n with
  | O => ret newObstacles
  | S n' =>
      obstacle <- generateObstacles_loop fuel g snake0 newObstacles food0 ;;
      generateObstacles_for fuel n' g snake0 (newObstacles ++ [obstacle]) food0
  end.

(** [generateObstacles]: reads [difficulty], [gridSize], [snake] and [food]
    of the snapshot [r], and replaces the obstacles of the pending state by
    the new array. *)
Definition generateObstacles (fuel : nat) (r p : State) : M State :=
  newObstacles <- generateObstacles_for fuel (obstacleCount (difficulty r))
                    (gridSize r) (snake r) [] (food r) ;;
  ret (setObstacles newObstacles p).

(** [moveSnake]: one tick.  [direction], [food], [gridSize], [obstacles]
    and [score] are those of the snapshot [r]; [prevSnake] is the pending
    snake.  On an empty snake the head is [{x: NaN, y: NaN}], which equals
    nothing, is prepended and popped again. *)
Definition moveSnake (fuel : nat) (r p : State) : M State :=
  let prevSnake := snake p in
  match prevSnake with
  | [] => ret p
  | first :: _ =>
      let head := newHead (gridSize r) (direction r) first in
      if collides head (obstacles r) prevSnake then
        ret (setSnake prevSnake (setIsPlaying false (setGameOver true p)))
      else
        let newSnake := head :: prevSnake in
        if sameCell head (food r) then
          let p1 := setScore (score p + 1) p in
          p2 <- generateFood fuel r p1 ;;
          p3 <- (if (0 <? score r) && (Z.rem (score r) 5 =? 0)
                 then generateObstacles fuel r p2
                 else ret p2) ;;
          ret (setSnake newSnake p3)
        else
          ret (setSnake (removelast newSnake) p)
  end.

(** [startGame] *)
Definition startGame (fuel : nat) (r p : State) : M State :=
  let p1 := setSnake INITIAL_SNAKE p in
  let p2 := setDirection INITIAL_DIRECTION p1 in
  p3 <- generateFood fuel r p2 ;;
  p4 <- generateObstacles fuel r p3 ;;
  ret (setIsPlaying true (setScore 0 (setGameOver false p4))).

(** ** Events *)

(** What can happen to the mounted component: the interval fires, a key
    goes down, a button is clicked, the window is resized. *)
Inductive Event : Set :=
| Tick
| KeyDown (key : string)
| ClickStart
| ClickPause
| ClickResume
| ClickDifficulty (d : Difficulty)
| Resize (clientWidth clientHeight : Z).

(** One event on the rendered state [s].  The interval and the key listener
    exist only while [isPlaying]; a button acts only when it is rendered:
    Start when [!isPlaying && !gameOver], Play Again when [gameOver] (both
    call [startGame]), Pause when [isPlaying], Resume when
    [!isPlaying && !gameOver && score > 0]. *)
Definition step (fuel : nat) (e : Event) (s : State) : M State :=
  match e with
  | Tick => if isPlaying s then moveSnake fuel s s else ret s
  | KeyDown key => if isPlaying s then ret (handleKeyPress key s) else ret s
  | ClickStart =>
      if (negb (isPlaying s) && negb (gameOver s)) || gameOver s
      then startGame fuel s s else ret s
  | ClickPause => if isPlaying s then ret (pauseGame s) else ret s
  | ClickResume =>
      if negb (isPlaying s) && negb (gameOver s) && (0 <? score s)
      then ret (resumeGame s) else ret s
  | ClickDifficulty d => ret (setDifficulty d s)
  | Resize clientWidth clientHeight =>
      ret (calculateGridSize clientWidth clientHeight s)
  end.

(** A sequence of events, one after the other. *)
Fixpoint run (fuel : nat) (events : list Event) (s : State) : M State :=
  match events with
  | [] => ret s
  | e :: events' => s1 <- step fuel e s ;; run fuel events' s1
  end.

(** The states the component can be in, with the number of random calls
    made: those reached from the initial render by events. *)
Inductive reachable : State -> nat -> Prop :=
| reachable_init : reachable initialState 0
| reachable_step : forall fuel e s k s' k',
    reachable s k -> step fuel e s k = Some (s', k') -> reachable s' k'.

End RandomSource.

(** ** Notions used to state the properties *)

(** A cell of the grid: [0 <= x < gridWidth], [0 <= y < gridHeight]. *)
Definition inGrid (g : GridSize) (c : Cell) : Prop :=
  0 <= x c < width g /\ 0 <= y c < height g.

(** The four unit vectors. *)
Definition isUnit (d : Direction) : Prop :=
  d = mkCell 1 0 \/ d = mkCell (-1) 0 \/ d = mkCell 0 1 \/ d = mkCell 0 (-1).

(** The direct reverse of a direction. *)
Definition reverse (d : Direction) : Direction := mkCell (- x d) (- y d).

(** The vector an arrow key asks for; no vector for any other key. *)
Definition arrowVector (key : string) : option Direction :=
  if (key =? "ArrowUp")%string then Some (mkCell 0 (-1))
  else if (key =? "ArrowDown")%string then Some (mkCell 0 1)
  else if (key =? "ArrowLeft")%string then Some (mkCell (-1) 0)
  else if (key =? "ArrowRight")%string then Some (mkCell 1 0)
  else None.

(** The input state machine in the words of the specification: a key press is
    accepted only if it changes the axis of motion, and ignored otherwise. *)
Definition acceptKey (key : string) (d : Direction) : Direction :=
  match arrowVector key with
  | Some v => if (x v * x d + y v * y d =? 0) then v else d
  | None => d
  end.

(** Wrap-around on one axis in the words of the specification: below 0 goes
    to [dimension - 1], at or beyond the dimension goes to 0. *)
Definition wrapped (dimension v : Z) : Z :=
  if v <? 0 then dimension - 1
  else if v >=? dimension then 0
  else v.

(** [0; 1; ...; n-1] *)
Definition range (n : Z) : list Z := map Z.of_nat (seq 0 (Z.to_nat n)).

(** All cells of the grid. *)
Definition allCells (g : GridSize) : list Cell :=
  map (fun xy => mkCell (fst xy) (snd xy))
      (list_prod (range (width g)) (range (height g))).

Definition Cell_eq_dec : forall a b : Cell, {a = b} + {a <> b}.
Proof. decide equality; apply Z.eq_dec. Defined.

(** The number of distinct cells of a list, as a set. *)
Definition cellCount (l : list Cell) : Z :=
  Z.of_nat (length (nodup Cell_eq_dec l)).

(** Every cell of the grid is drawn at some time from call [k] on, the
    calls taken in pairs [(x, y)] as the placement loops take them: what is
    kept of "uniformly random" for a single stream. *)
Definition fairFrom (random : nat -> Q) (g : GridSize) (k : nat) : Prop :=
  forall c, inGrid g c -> exists j, randomCell random g (2 * j + k) = c.

(** [placeRandomCell] of the specification: draw cells until one is outside
    the forbidden set. *)
Fixpoint placeRandomCell (random : nat -> Q) (fuel : nat) (g : GridSize)
         (forbidden : Cell -> bool) (k : nat) : option (Cell * nat) :=
  match fuel with
  | O => None
  | S fuel' =>
      let c := randomCell random g k in
      if forbidden c then placeRandomCell random fuel' g forbidden (2 + k)
      else Some (c, (2 + k)%nat)
  end.

(** The forbidden sets of the two loops, as the [while] conditions test
    them. *)
Definition forbiddenForFood (snake0 obstacles0 : list Cell) (c : Cell) : bool :=
  existsb (fun segment => sameCell segment c) snake0
  || existsb (fun obstacle => sameCell obstacle c) obstacles0.

Definition forbiddenForObstacle (snake0 newObstacles : list Cell) (food0 : Cell)
           (c : Cell) : bool :=
  existsb (fun segment => sameCell segment c) snake0
  || existsb (fun obs => sameCell obs c) newObstacles
  || sameCell food0 c.

(** Fairness at every later pair of calls as well, for computations that run
    several placement loops. *)
Definition fair (random : nat -> Q) (g : GridSize) (k : nat) : Prop :=
  forall j, fairFrom random g (2 * j + k).

(** Every random number is in [0, 1). *)
Definition unitInterval (random : nat -> Q) : Prop :=
  forall i, (0 <= random i)%Q /\ (random i < 1)%Q.

(** The condition under which the tick regenerates the obstacles, as the
    source writes it: on the score of the snapshot. *)
Definition milestone (s : State) : bool :=
  (0 <? score s) && (Z.rem (score s) 5 =? 0).

(** Room on the grid for what a tick may have to place: a free cell for the
    food, and at a milestone free cells for a whole batch of obstacles. *)
Definition roomForTick (s : State) : Prop :=
  cellCount (snake s ++ obstacles s)
  < width (gridSize s) * height (gridSize s)
  /\ (milestone s = true ->
      cellCount (snake s ++ [food s])
      + Z.of_nat (obstacleCount (difficulty s))
      <= width (gridSize s) * height (gridSize s)).

(** The placement invariant of the data model, as a test on a state: the food
    is on no snake cell and on no obstacle, no obstacle is on the snake, and
    the obstacles are pairwise distinct. *)
Fixpoint distinctCells (l : list Cell) : bool :=
  match l with
  | [] => true
  | c :: rest => negb (existsb (sameCell c) rest) && distinctCells rest
  end.

Definition placementOk (s : State) : bool :=
  negb (existsb (sameCell (food s)) (snake s))
  && negb (existsb (sameCell (food s)) (obstacles s))
  && negb (existsb (fun o => existsb (sameCell o) (snake s)) (obstacles s))
  && distinctCells (obstacles s).

(** ** Concrete scenarios *)

(** A stream of random numbers given by its first numerators over a common
    denominator (0 afterwards). *)
Definition randomOf (den : positive) (nums : list Z) : nat -> Q :=
  fun k => nth k nums 0 # den.

Definition grid20 : GridSize := mkGrid 20 20.

Definition bottomRow : list Cell :=
  [mkCell 0 0; mkCell 1 0; mkCell 2 0; mkCell 3 0; mkCell 4 0;
   mkCell 5 0; mkCell 6 0; mkCell 7 0; mkCell 8 0; mkCell 9 0].

(** The component once mounted in a 400 by 400 pixel game area. *)
Definition mounted : State := calculateGridSize 400 400 initialState.

(** First start where the food is drawn at (3,3) and the first obstacle at
    (3,3) too. *)
Definition randomStart : nat -> Q :=
  randomOf 20 [3;3; 3;3; 0;0; 1;0; 2;0; 3;0; 4;0; 5;0; 6;0; 7;0; 8;0].

Definition afterStart : State :=
  mkState INITIAL_SNAKE INITIAL_DIRECTION (mkCell 3 3)
          [mkCell 3 3; mkCell 0 0; mkCell 1 0; mkCell 2 0; mkCell 3 0;
           mkCell 4 0; mkCell 5 0; mkCell 6 0; mkCell 7 0; mkCell 8 0]
          false 0 hard grid20 true.

(** First start with the food at (11,10), then a tick that eats it while the
    next food is drawn at (11,10) again. *)
Definition randomEat : nat -> Q :=
  randomOf 20 [11;10; 0;0; 1;0; 2;0; 3;0; 4;0; 5;0; 6;0; 7;0; 8;0; 9;0; 11;10].

Definition beforeEat : State :=
  mkState INITIAL_SNAKE INITIAL_DIRECTION (mkCell 11 10) bottomRow
          false 0 hard grid20 true.

Definition afterEat : State :=
  mkState [mkCell 11 10; mkCell 10 10] INITIAL_DIRECTION (mkCell 11 10)
          bottomRow false 1 hard grid20 true.

(** A whole game from the first render: start with the food at (11,10) and
    the obstacles on the bottom row, then six ticks to the right, each onto
    the food, the next food drawn one cell further each time; the last tick
    draws a new batch of obstacles on the row above. *)
Definition randomMilestone : nat -> Q :=
  randomOf 20 [11;10; 0;0; 1;0; 2;0; 3;0; 4;0; 5;0; 6;0; 7;0; 8;0; 9;0;
               12;10; 13;10; 14;10; 15;10; 16;10;
               5;5; 0;1; 1;1; 2;1; 3;1; 4;1; 5;1; 6;1; 7;1; 8;1; 9;1].

Definition atScore4 : State :=
  mkState [mkCell 14 10; mkCell 13 10; mkCell 12 10; mkCell 11 10; mkCell 10 10]
          INITIAL_DIRECTION (mkCell 15 10) bottomRow false 4 hard grid20 true.

Definition atScore5 : State :=
  mkState [mkCell 15 10; mkCell 14 10; mkCell 13 10; mkCell 12 10; mkCell 11 10;
           mkCell 10 10]
          INITIAL_DIRECTION (mkCell 16 10) bottomRow false 5 hard grid20 true.

Definition atScore6 : State :=
  mkState [mkCell 16 10; mkCell 15 10; mkCell 14 10; mkCell 13 10; mkCell 12 10;
           mkCell 11 10; mkCell 10 10]
          INITIAL_DIRECTION (mkCell 5 5)
          [mkCell 0 1; mkCell 1 1; mkCell 2 1; mkCell 3 1; mkCell 4 1;
           mkCell 5 1; mkCell 6 1; mkCell 7 1; mkCell 8 1; mkCell 9 1]
          false 6 hard grid20 true.

(** First start with an obstacle drawn right in front of the snake, and the
    tick that runs into it. *)
Definition randomCrash : nat -> Q :=
  randomOf 20 [15;15; 11;10; 0;0; 1;0; 2;0; 3;0; 4;0; 5;0; 6;0; 7;0; 8;0].

Definition crashObstacles : list Cell :=
  [mkCell 11 10; mkCell 0 0; mkCell 1 0; mkCell 2 0; mkCell 3 0;
   mkCell 4 0; mkCell 5 0; mkCell 6 0; mkCell 7 0; mkCell 8 0].

Definition beforeCrash : State :=
  mkState INITIAL_SNAKE INITIAL_DIRECTION (mkCell 15 15) crashObstacles
          false 0 hard grid20 true.

Definition crashed : State :=
  mkState INITIAL_SNAKE INITIAL_DIRECTION (mkCell 15 15) crashObstacles
          true 0 hard grid20 false.

(** The scenarios of the specification. *)
Definition obstacleAhead : State :=
  mkState [mkCell 5 5; mkCell 4 5; mkCell 3 5] (mkCell 0 1) (mkCell 15 15)
          [mkCell 5 6] false 2 hard grid20 true.

Definition foodAhead : State :=
  mkState [mkCell 10 10] (mkCell 1 0) (mkCell 11 10) [] false 0 hard grid20 true.

Definition afterFood : State :=
  mkState [mkCell 11 10; mkCell 10 10] (mkCell 1 0) (mkCell 5 5) [] false 1
          hard grid20 true.

(** A snake of four cells curled in a square, its head next to its tail. *)
Definition curled : State :=
  mkState [mkCell 1 1; mkCell 1 2; mkCell 2 2; mkCell 2 1] (mkCell 1 0)
          (mkCell 15 15) [] false 3 hard grid20 true.

(** A snake of two cells moving right over free cells. *)
Definition cruising : State :=
  mkState [mkCell 10 10; mkCell 9 10] (mkCell 1 0) (mkCell 15 15) bottomRow
          false 1 hard grid20 true.

(** A stream that draws the four cells of a 2 by 2 grid in turn, for ever:
    (0,0), (1,0), (0,1), (1,1), (0,0), ... *)
Definition grid2 : GridSize := mkGrid 2 2.

Fixpoint cycle4 (k : nat) : Q :=
  match k with
  | 0 | 1 | 3 | 4 => 0 # 1
  | 2 | 5 | 6 | 7 => 1 # 2
  | S (S (S (S (S (S (S (S k'))))))) => cycle4 k'
  end%nat.

(** A snake of one cell in the corner of the 2 by 2 grid, the food next to
    it. *)
Definition corner : State :=
  mkState [mkCell 0 0] (mkCell 1 0) (mkCell 1 0) [] false 0 hard grid2 true.

(** A stream that draws the cell (0,0) for ever. *)
Definition stuck : nat -> Q := fun _ => 0 # 1.

(** ** Rendering and further notions *)

(** The style of a rendered cell: [left: x * CELL_SIZE px],
    [top: y * CELL_SIZE px], a square of side [CELL_SIZE]. *)
Definition styleLeft (c : Cell) : Z := x c * CELL_SIZE.
Definition styleTop (c : Cell) : Z := y c * CELL_SIZE.

(** Snake, food and obstacles are all cells of the grid. *)
Definition onGrid (s : State) : Prop :=
  Forall (inGrid (gridSize s)) (snake s)
  /\ inGrid (gridSize s) (food s)
  /\ Forall (inGrid (gridSize s)) (obstacles s).

(** No obstacle lies on the snake. *)
Definition obstaclesOffSnake (s : State) : Prop :=
  forall o, In o (obstacles s) -> ~ In o (snake s).

(** The placement invariant as a proposition. *)
Definition placementInvariant (s : State) : Prop :=
  ~ In (food s) (snake s)
  /\ ~ In (food s) (obstacles s)
  /\ obstaclesOffSnake s
  /\ NoDup (obstacles s).

(** The events that the interval and the keyboard produce. *)
Definition tickOrKey (e : Event) : Prop :=
  e = Tick \/ exists key, e = KeyDown key.

(** A stream that draws the cells of a grid in turn, row after row, for
    ever: call [2 i] gives the x and call [2 i + 1] the y of cell number
    [i mod (width * height)], each divided by its dimension. *)
Definition sweep (g : GridSize) : nat -> Q :=
  fun k =>
    let cells := allCells g in
    let c := nth (Nat.div2 k mod List.length cells) cells (mkCell 0 0) in
    if Nat.even k then x c # Z.to_pos (width g)
    else y c # Z.to_pos (height g).

(** A snake in a grid one column wide, moving sideways. *)
Definition narrow : State :=
  mkState [mkCell 0 2; mkCell 0 1] (mkCell 1 0) (mkCell 0 4) [] false 1 hard
          (mkGrid 1 5) true.

(** A grid of nine cells. *)
Definition tiny : State :=
  mkState INITIAL_SNAKE INITIAL_DIRECTION (mkCell 15 15) [] false 0 hard
          (mkGrid 3 3) false.

(** A snake of three cells in a row, moving right. *)
Definition straight : State :=
  mkState [mkCell 10 10; mkCell 9 10; mkCell 8 10] (mkCell 1 0) (mkCell 15 15)
          bottomRow false 2 hard grid20 true.

(** A game paused after the first food, and one paused before it. *)
Definition pausedAtOne : State := pauseGame afterEat.

(** The first render on a grid of 10 columns and 20 rows, and a start on it
    that draws the food at (1,1) and the obstacles down the first column. *)
Definition slim : State := setGridSize (mkGrid 10 20) initialState.

Definition randomSlim : nat -> Q :=
  randomOf 20 [2;1; 0;0; 0;1; 0;2; 0;3; 0;4; 0;5; 0;6; 0;7; 0;8; 0;9].

Definition slimStarted : State :=
  mkState INITIAL_SNAKE INITIAL_DIRECTION (mkCell 1 1)
          [mkCell 0 0; mkCell 0 1; mkCell 0 2; mkCell 0 3; mkCell 0 4;
           mkCell 0 5; mkCell 0 6; mkCell 0 7; mkCell 0 8; mkCell 0 9]
          false 0 hard (mkGrid 10 20) true.

(** A game whose food was left outside the grid by a resize to 10 by 10,
    and the same game two ticks and a turn later. *)
Definition stranded : State :=
  mkState [mkCell 3 5; mkCell 2 5] (mkCell 1 0) (mkCell 15 15) [] false 1 hard
          (mkGrid 10 10) true.

Definition strandedLater : State :=
  mkState [mkCell 4 4; mkCell 4 5] (mkCell 0 (-1)) (mkCell 15 15) [] false 1
          hard (mkGrid 10 10) true.

(** The cells that a draw can give: a dimension of 0 always draws the
    coordinate 0, so the draws range over at least one column and row. *)
Definition drawRange (g : GridSize) : GridSize :=
  mkGrid (Z.max 1 (width g)) (Z.max 1 (height g)).

(** A game from the first render: start with the food at (11,10), one tick
    onto it (next food at (5,5)), then Up and Left pressed before the next
    tick, and that tick. *)
Definition randomTurn : nat -> Q :=
  randomOf 20 [11;10; 0;0; 1;0; 2;0; 3;0; 4;0; 5;0; 6;0; 7;0; 8;0; 9;0; 5;5].

Definition movingRight : State :=
  mkState [mkCell 11 10; mkCell 10 10] (mkCell 1 0) (mkCell 5 5) bottomRow
          false 1 hard grid20 true.

Definition turnedBack : State :=
  mkState [mkCell 11 10; mkCell 10 10] (mkCell (-1) 0) (mkCell 5 5) bottomRow
          false 1 hard grid20 true.

Definition turnedBackOver : State :=
  mkState [mkCell 11 10; mkCell 10 10] (mkCell (-1) 0) (mkCell 5 5) bottomRow
          true 1 hard grid20 false.

(** * Properties *)

(** ** Cells and lists of cells *)

Lemma sameCell_eq (a b : Cell) : sameCell a b = true <-> a = b.
Proof.
  unfold sameCell. destruct a as [ax ay], b as [bx by']; simpl.
  rewrite andb_true_iff, !Z.eqb_eq. split.
  - intros [-> ->]; reflexivity.
  - intros H; inversion H; auto.
Qed.

Lemma some_sameCell_In (l : list Cell) (c : Cell) :
  existsb (fun e => sameCell e c) l = true <-> In c l.
Proof.
  rewrite existsb_exists. split.
  - intros (e & Hin & He). apply sameCell_eq in He. subst; assumption.
  - intros H. exists c. split; [assumption | now apply sameCell_eq].
Qed.

Lemma some_sameCell_notIn (l : list Cell) (c : Cell) :
  existsb (fun e => sameCell e c) l = false <-> ~ In c l.
Proof.
  rewrite <- some_sameCell_In.
  destruct (existsb _ l); split; intros; congruence.
Qed.

Lemma collides_iff (head : Cell) (obs prev : list Cell) :
  collides head obs prev = true <-> In head obs \/ In head prev.
Proof.
  unfold collides. now rewrite orb_true_iff, !some_sameCell_In.
Qed.

Lemma collides_free (head : Cell) (obs prev : list Cell) :
  ~ In head obs -> ~ In head prev -> collides head obs prev = false.
Proof.
  intros Ho Hp. destruct (collides head obs prev) eqn:E; [|reflexivity].
  apply collides_iff in E. tauto.
Qed.

Lemma last_In (l : list Cell) (d : Cell) : l <> [] -> In (last l d) l.
Proof.
  induction l as [|a l IH]; [congruence|]. intros _.
  destruct l as [|b l]; [now left|].
  right. apply IH. discriminate.
Qed.

Lemma removelast_cons_length (a : Cell) (l : list Cell) :
  List.length (removelast (a :: l)) = List.length l.
Proof.
  revert a. induction l as [|b l IH]; intros a; [reflexivity|].
  specialize (IH b). simpl in *. now rewrite IH.
Qed.

(** ** The tick *)

(** On a collision the tick returns at once with the two flags set. *)
Lemma moveSnake_collision (random : nat -> Q) (fuel : nat) (s : State) (k : nat)
      (first : Cell) (rest : list Cell) :
  snake s = first :: rest ->
  collides (newHead (gridSize s) (direction s) first) (obstacles s) (snake s) = true ->
  moveSnake random fuel s s k
  = Some (setSnake (snake s) (setIsPlaying false (setGameOver true s)), k).
Proof.
  intros Hs Hc. unfold moveSnake. rewrite Hs in *. rewrite Hc. reflexivity.
Qed.

(** Without collision and without food the tick only moves the snake. *)
Lemma moveSnake_quiet (random : nat -> Q) (fuel : nat) (s : State) (k : nat)
      (first : Cell) (rest : list Cell) :
  snake s = first :: rest ->
  collides (newHead (gridSize s) (direction s) first) (obstacles s) (snake s) = false ->
  sameCell (newHead (gridSize s) (direction s) first) (food s) = false ->
  moveSnake random fuel s s k
  = Some (setSnake (removelast (newHead (gridSize s) (direction s) first :: snake s)) s, k).
Proof.
  intros Hs Hc Hf. unfold moveSnake. rewrite Hs in *. rewrite Hc, Hf. reflexivity.
Qed.

(** C3: a tick whose wrapped new head is on an obstacle or on a cell of the
    snake as it is before the tick ends the game (status over: [gameOver]
    set, [isPlaying] cleared) and leaves snake, food, obstacles and score
    exactly as they were. *)
Theorem tick_collision_ends_game
        (random : nat -> Q) (fuel : nat) (s : State) (k : nat)
        (first : Cell) (rest : list Cell) (head : Cell) :
  snake s = first :: rest ->
  head = newHead (gridSize s) (direction s) first ->
  In head (obstacles s) \/ In head (snake s) ->
  exists s', moveSnake random fuel s s k = Some (s', k)
             /\ gameOver s' = true /\ isPlaying s' = false
             /\ snake s' = snake s /\ food s' = food s
             /\ obstacles s' = obstacles s /\ score s' = score s.
Proof.
  intros Hs -> Hin. apply collides_iff in Hin.
  eexists. split; [eapply moveSnake_collision; eassumption|].
  repeat split.
Qed.

Lemma tick_collision_ends_game_witness :
  snake obstacleAhead = mkCell 5 5 :: [mkCell 4 5; mkCell 3 5]
  /\ mkCell 5 6 = newHead (gridSize obstacleAhead) (direction obstacleAhead) (mkCell 5 5)
  /\ (In (mkCell 5 6) (obstacles obstacleAhead) \/ In (mkCell 5 6) (snake obstacleAhead))
  /\ exists s', moveSnake stuck 0 obstacleAhead obstacleAhead 0%nat = Some (s', 0%nat)
                /\ gameOver s' = true /\ isPlaying s' = false
                /\ snake s' = snake obstacleAhead /\ food s' = food obstacleAhead
                /\ obstacles s' = obstacles obstacleAhead
                /\ score s' = score obstacleAhead.
Proof.
  split; [reflexivity|]. split; [reflexivity|].
  split; [left; simpl; auto|].
  apply (tick_collision_ends_game stuck 0 obstacleAhead 0%nat (mkCell 5 5)
           [mkCell 4 5; mkCell 3 5] (mkCell 5 6)).
  - reflexivity.
  - reflexivity.
  - left; simpl; auto.
Defined.

(** C4: the self-collision test sees the whole snake of before the tick, tail
    included: a new head on the position of the current last segment ends the
    game and the snake stays as it was. *)
Theorem tail_counts_as_occupied
        (random : nat -> Q) (fuel : nat) (s : State) (k : nat)
        (first : Cell) (rest : list Cell) (head : Cell) :
  snake s = first :: rest ->
  head = newHead (gridSize s) (direction s) first ->
  head = last (snake s) first ->
  exists s', moveSnake random fuel s s k = Some (s', k)
             /\ gameOver s' = true /\ isPlaying s' = false
             /\ snake s' = snake s.
Proof.
  intros Hs Hh Hl.
  assert (Hc : collides (newHead (gridSize s) (direction s) first)
                        (obstacles s) (snake s) = true).
  { apply collides_iff. right. rewrite <- Hh, Hl.
    apply last_In. rewrite Hs. discriminate. }
  eexists. split; [eapply moveSnake_collision; eassumption|].
  repeat split.
Qed.

Lemma tail_counts_as_occupied_witness :
  snake curled = mkCell 1 1 :: [mkCell 1 2; mkCell 2 2; mkCell 2 1]
  /\ mkCell 2 1 = newHead (gridSize curled) (direction curled) (mkCell 1 1)
  /\ mkCell 2 1 = last (snake curled) (mkCell 1 1)
  /\ ~ In (mkCell 2 1) (removelast (snake curled))
  /\ exists s', moveSnake stuck 0 curled curled 0%nat = Some (s', 0%nat)
                /\ gameOver s' = true /\ isPlaying s' = false
                /\ snake s' = snake curled.
Proof.
  split; [reflexivity|]. split; [reflexivity|]. split; [reflexivity|].
  split.
  - simpl. intros [H|[H|[H|[]]]]; discriminate H.
  - apply (tail_counts_as_occupied stuck 0 curled 0%nat (mkCell 1 1)
             [mkCell 1 2; mkCell 2 2; mkCell 2 1] (mkCell 2 1));
      reflexivity.
Defined.

(** C10: a tick whose wrapped new head neither collides nor is on the food
    changes the snake only (new head in front, last cell removed): food,
    obstacles, score, both status flags and the difficulty (also direction
    and grid size) are as before, and no random number is drawn. *)
Theorem quiet_tick_changes_snake_only
        (random : nat -> Q) (fuel : nat) (s : State) (k : nat)
        (first : Cell) (rest : list Cell) (head : Cell) :
  snake s = first :: rest ->
  head = newHead (gridSize s) (direction s) first ->
  ~ In head (obstacles s) ->
  ~ In head (snake s) ->
  head <> food s ->
  exists s', moveSnake random fuel s s k = Some (s', k)
             /\ snake s' = removelast (head :: snake s)
             /\ food s' = food s /\ obstacles s' = obstacles s
             /\ score s' = score s
             /\ gameOver s' = gameOver s /\ isPlaying s' = isPlaying s
             /\ difficulty s' = difficulty s
             /\ direction s' = direction s /\ gridSize s' = gridSize s.
Proof.
  intros Hs -> Ho Hn Hf.
  eexists. split.
  - eapply moveSnake_quiet; [eassumption| |].
    + now apply collides_free.
    + destruct (sameCell _ (food s)) eqn:E; [|reflexivity].
      apply sameCell_eq in E. contradiction.
  - repeat split.
Qed.

Lemma quiet_tick_changes_snake_only_witness :
  snake cruising = mkCell 10 10 :: [mkCell 9 10]
  /\ mkCell 11 10 = newHead (gridSize cruising) (direction cruising) (mkCell 10 10)
  /\ ~ In (mkCell 11 10) (obstacles cruising)
  /\ ~ In (mkCell 11 10) (snake cruising)
  /\ mkCell 11 10 <> food cruising
  /\ exists s', moveSnake stuck 0 cruising cruising 0%nat = Some (s', 0%nat)
                /\ snake s' = removelast (mkCell 11 10 :: snake cruising)
                /\ food s' = food cruising /\ obstacles s' = obstacles cruising
                /\ score s' = score cruising
                /\ gameOver s' = gameOver cruising
                /\ isPlaying s' = isPlaying cruising
                /\ difficulty s' = difficulty cruising
                /\ direction s' = direction cruising
                /\ gridSize s' = gridSize cruising.
Proof.
  assert (Ho : ~ In (mkCell 11 10) (obstacles cruising)).
  { simpl. intros H.
    repeat (destruct H as [H|H]; [discriminate H|]). exact H. }
  assert (Hn : ~ In (mkCell 11 10) (snake cruising)).
  { simpl. intros H.
    repeat (destruct H as [H|H]; [discriminate H|]). exact H. }
  assert (Hf : mkCell 11 10 <> food cruising) by discriminate.
  split; [reflexivity|]. split; [reflexivity|].
  split; [exact Ho|]. split; [exact Hn|]. split; [exact Hf|].
  apply (quiet_tick_changes_snake_only stuck 0 cruising 0%nat (mkCell 10 10)
           [mkCell 9 10] (mkCell 11 10)); (reflexivity || assumption).
Defined.

(** ** Wrap-around *)

(** The four statements of the source, run in sequence, are the wrap-around
    by cases of the specification on each axis. *)
Lemma newHead_wrapped (g : GridSize) (d : Direction) (c : Cell) :
  newHead g d c
  = mkCell (wrapped (width g) (x c + x d)) (wrapped (height g) (y c + y d)).
Proof.
  unfold newHead, wrapped.
  destruct (x c + x d <? 0) eqn:Ex; destruct (y c + y d <? 0) eqn:Ey;
    repeat match goal with
           | |- context [?a >=? ?b] => destruct (Z.geb_spec a b)
           end;
    try reflexivity; lia.
Qed.

(** C5: wrap-around acts on each axis by itself.  On a grid with at least one
    cell, for any head and direction the new x is the old x plus the
    direction's x, set to [gridWidth - 1] when below 0 and to 0 when it
    reaches the width, and likewise for y with the height; so from a grid
    cell a move to the left from column 0 lands in column [gridWidth - 1] of
    the same row, a move to the right from the last column in column 0, and
    the same up and down. *)
Theorem wraparound_per_axis (g : GridSize) (c : Cell) :
  inGrid g c ->
  (forall (d : Direction) (c' : Cell),
      x (newHead g d c') = wrapped (width g) (x c' + x d)
      /\ y (newHead g d c') = wrapped (height g) (y c' + y d))
  /\ newHead g (mkCell (-1) 0) c
     = mkCell (if x c =? 0 then width g - 1 else x c - 1) (y c)
  /\ newHead g (mkCell 1 0) c
     = mkCell (if x c =? width g - 1 then 0 else x c + 1) (y c)
  /\ newHead g (mkCell 0 (-1)) c
     = mkCell (x c) (if y c =? 0 then height g - 1 else y c - 1)
  /\ newHead g (mkCell 0 1) c
     = mkCell (x c) (if y c =? height g - 1 then 0 else y c + 1).
Proof.
  intros [[Hx0 Hx1] [Hy0 Hy1]].
  split; [intros d c'; now rewrite newHead_wrapped|].
  rewrite !newHead_wrapped. unfold wrapped. simpl.
  repeat split; f_equal;
    repeat match goal with
           | |- context [?a <? ?b] => destruct (Z.ltb_spec a b)
           | |- context [?a >=? ?b] => destruct (Z.geb_spec a b)
           | |- context [?a =? ?b] => destruct (Z.eqb_spec a b)
           end;
    lia.
Qed.

Lemma wraparound_per_axis_witness :
  inGrid grid20 (mkCell 0 5)
  /\ newHead grid20 (mkCell (-1) 0) (mkCell 0 5) = mkCell 19 5
  /\ newHead grid20 (mkCell 1 0) (mkCell 0 5) = mkCell 1 5
  /\ x (newHead grid20 (mkCell 1 0) (mkCell 19 5)) = 0.
Proof.
  assert (H : inGrid grid20 (mkCell 0 5)) by (unfold inGrid; simpl; lia).
  split; [exact H|].
  pose proof (wraparound_per_axis grid20 (mkCell 0 5) H)
    as (Hany & Hl & Hr & _).
  split; [exact Hl|]. split; [exact Hr|].
  exact (proj1 (Hany (mkCell 1 0) (mkCell 19 5))).
Defined.

(** ** Key presses *)

Lemma handleKeyPress_direction (key : string) (s : State) :
  isUnit (direction s) ->
  direction (handleKeyPress key s) = acceptKey key (direction s).
Proof.
  intros Hu. unfold handleKeyPress, acceptKey, arrowVector.
  destruct (key =? "ArrowUp")%string;
    [|destruct (key =? "ArrowDown")%string;
      [|destruct (key =? "ArrowLeft")%string;
        [|destruct (key =? "ArrowRight")%string]]];
    try reflexivity;
    destruct Hu as [E|[E|[E|E]]]; rewrite E; reflexivity.
Qed.

Lemma acceptKey_unit (key : string) (d : Direction) :
  isUnit d -> isUnit (acceptKey key d) /\ acceptKey key d <> reverse d.
Proof.
  intros Hu. unfold acceptKey, arrowVector.
  destruct (key =? "ArrowUp")%string;
    [|destruct (key =? "ArrowDown")%string;
      [|destruct (key =? "ArrowLeft")%string;
        [|destruct (key =? "ArrowRight")%string]]];
    destruct Hu as [E|[E|[E|E]]]; subst d; simpl;
    (split; [unfold isUnit; tauto | discriminate]).
Qed.

(** One event at a time, against the stored direction: the direction becomes
    what the state machine of the specification says (an arrow key is
    accepted only when its vector is perpendicular to the stored direction,
    and any other press leaves it as it is); the new direction is again one
    of the four unit vectors and is never the reverse of the direction stored
    before the event. *)
Theorem key_press_changes_axis_only (key : string) (s : State) :
  isUnit (direction s) ->
  direction (handleKeyPress key s) = acceptKey key (direction s)
  /\ isUnit (direction (handleKeyPress key s))
  /\ direction (handleKeyPress key s) <> reverse (direction s).
Proof.
  intros Hu. rewrite handleKeyPress_direction by assumption.
  split; [reflexivity|]. now apply acceptKey_unit.
Qed.

(** The guarantee is per event, on the direction state: two accepted presses
    before the next tick (Up, then Left, while moving right) leave the
    reverse of the direction of the last move. *)
Remark two_presses_before_a_tick :
  direction (handleKeyPress "ArrowLeft" (handleKeyPress "ArrowUp" foodAhead))
  = reverse (direction foodAhead).
Proof. reflexivity. Qed.

Lemma key_press_changes_axis_only_witness :
  isUnit (direction foodAhead)
  /\ direction (handleKeyPress "ArrowUp" foodAhead) = mkCell 0 (-1)
  /\ direction (handleKeyPress "ArrowLeft" foodAhead) = mkCell 1 0
  /\ direction (handleKeyPress "ArrowRight" foodAhead) = mkCell 1 0
  /\ isUnit (direction (handleKeyPress "ArrowDown" foodAhead))
  /\ direction (handleKeyPress "ArrowDown" foodAhead) <> reverse (direction foodAhead).
Proof.
  assert (H : isUnit (direction foodAhead)) by (left; reflexivity).
  split; [exact H|].
  split; [reflexivity|]. split; [reflexivity|]. split; [reflexivity|].
  exact (proj2 (key_press_changes_axis_only "ArrowDown" foodAhead H)).
Defined.

(** C7 (the code departs from it): the handler tests the stored direction,
    which an earlier press has already changed, not the axis the snake is
    moving on.  In a game played from the first render, with the snake
    moving right, Up and then Left before the next tick are both accepted:
    Left is taken although the snake has only moved horizontally, the
    direction is the reverse of that of the last move while the snake is
    where it was, and the next tick runs the head into the second cell and
    ends the game. *)
Theorem double_press_reverses :
  run randomTurn 5 [Resize 400 400; ClickStart; Tick] initialState 0%nat
  = Some (movingRight, 24%nat)
  /\ direction movingRight = mkCell 1 0
  /\ run randomTurn 5 [KeyDown "ArrowUp"; KeyDown "ArrowLeft"] movingRight 24%nat
     = Some (turnedBack, 24%nat)
  /\ snake turnedBack = snake movingRight
  /\ direction turnedBack = reverse (direction movingRight)
  /\ step randomTurn 5 Tick turnedBack 24%nat = Some (turnedBackOver, 24%nat)
  /\ gameOver turnedBackOver = true
  /\ snake turnedBackOver = snake movingRight.
Proof.
  repeat (split; [reflexivity|]). reflexivity.
Qed.

(** ** Placement by rejection sampling *)

Section Placement.

Variable random : nat -> Q.

(** Both loops of the source are [placeRandomCell] on their forbidden set. *)
Lemma generateFood_loop_place (fuel : nat) (g : GridSize)
      (snake0 obstacles0 : list Cell) (k : nat) :
  generateFood_loop random fuel g snake0 obstacles0 k
  = placeRandomCell random fuel g (forbiddenForFood snake0 obstacles0) k.
Proof.
  revert k. induction fuel as [|fuel IH]; intros k; simpl; [reflexivity|].
  unfold forbiddenForFood at 1. rewrite IH. reflexivity.
Qed.

Lemma generateObstacles_loop_place (fuel : nat) (g : GridSize)
      (snake0 newObstacles : list Cell) (food0 : Cell) (k : nat) :
  generateObstacles_loop random fuel g snake0 newObstacles food0 k
  = placeRandomCell random fuel g
      (forbiddenForObstacle snake0 newObstacles food0) k.
Proof.
  revert k. induction fuel as [|fuel IH]; intros k; simpl; [reflexivity|].
  unfold forbiddenForObstacle at 1. rewrite IH. reflexivity.
Qed.

(** What a placement returns is a drawn cell outside the forbidden set. *)
Lemma placeRandomCell_sound (fuel : nat) (g : GridSize)
      (forbidden : Cell -> bool) (k : nat) (c : Cell) (k' : nat) :
  placeRandomCell random fuel g forbidden k = Some (c, k') ->
  forbidden c = false
  /\ exists j, c = randomCell random g (2 * j + k) /\ k' = (2 * S j + k)%nat.
Proof.
  revert k. induction fuel as [|fuel IH]; intros k; simpl; [discriminate|].
  destruct (forbidden (randomCell random g k)) eqn:E.
  - intros H. apply IH in H as (Hf & j & Hc & Hk).
    split; [assumption|]. exists (S j). split.
    + rewrite Hc. f_equal. lia.
    + lia.
  - intros H. injection H as <- <-. split; [assumption|].
    exists 0%nat. split; [reflexivity | lia].
Qed.

(** A free cell among the draws is enough for the loop to return. *)
Lemma placeRandomCell_hit (g : GridSize) (forbidden : Cell -> bool)
      (j k : nat) :
  forbidden (randomCell random g (2 * j + k)) = false ->
  exists c k', placeRandomCell random (S j) g forbidden k = Some (c, k').
Proof.
  revert k. induction j as [|j IH]; intros k Hfree.
  - simpl in *. rewrite Hfree. eauto.
  - change (placeRandomCell random (S (S j)) g forbidden k)
      with (if forbidden (randomCell random g k)
            then placeRandomCell random (S j) g forbidden (2 + k)
            else Some (randomCell random g k, (2 + k)%nat)).
    destruct (forbidden (randomCell random g k)); [|eauto].
    apply IH. replace (2 * j + (2 + k))%nat with (2 * S j + k)%nat by lia.
    assumption.
Qed.

(** A larger iteration bound does not change a result. *)
Lemma placeRandomCell_mono (fuel fuel' : nat) (g : GridSize)
      (forbidden : Cell -> bool) (k : nat) (r : Cell * nat) :
  placeRandomCell random fuel g forbidden k = Some r ->
  (fuel <= fuel')%nat ->
  placeRandomCell random fuel' g forbidden k = Some r.
Proof.
  revert fuel' k. induction fuel as [|fuel IH]; intros fuel' k; simpl;
    [discriminate|].
  intros H Hle. destruct fuel' as [|fuel']; [lia|]. simpl.
  destruct (forbidden (randomCell random g k)); [|assumption].
  apply IH; [assumption | lia].
Qed.

(** A drawn coordinate is inside its dimension. *)
Lemma floor_scaled_range (r : Q) (n : Z) :
  (0 <= r)%Q -> (r < 1)%Q -> 1 <= n ->
  0 <= Qfloor (r * inject_Z n) < n.
Proof.
  intros H0 H1 Hn. split.
  - change 0 with (Qfloor (inject_Z 0)). apply Qfloor_resp_le.
    apply Qmult_le_0_compat; [assumption|].
    change (inject_Z 0 <= inject_Z n)%Q. rewrite <- Zle_Qle. lia.
  - rewrite Zlt_Qlt.
    apply Qle_lt_trans with (r * inject_Z n)%Q; [apply Qfloor_le|].
    rewrite <- (Qmult_1_l (inject_Z n)) at 2.
    apply Qmult_lt_compat_r; [|assumption].
    change (inject_Z 0 < inject_Z n)%Q. rewrite <- Zlt_Qlt. lia.
Qed.

Lemma randomCell_inGrid (g : GridSize) (k : nat) :
  unitInterval random -> 1 <= width g -> 1 <= height g ->
  inGrid g (randomCell random g k).
Proof.
  intros Hr Hw Hh. unfold inGrid, randomCell; simpl.
  split; apply floor_scaled_range; try assumption; apply Hr.
Qed.

End Placement.

(** ** Counting the cells of the grid *)

Lemma range_In (n v : Z) : In v (range n) <-> 0 <= v < n.
Proof.
  unfold range. rewrite in_map_iff. split.
  - intros (i & <- & Hi). apply in_seq in Hi. lia.
  - intros Hv. exists (Z.to_nat v). split; [lia|]. apply in_seq. lia.
Qed.

Lemma range_NoDup (n : Z) : NoDup (range n).
Proof.
  unfold range. apply NoDup_map_NoDup_ForallPairs; [|apply seq_NoDup].
  intros a b _ _ H. now apply Nat2Z.inj.
Qed.

Lemma range_length (n : Z) : List.length (range n) = Z.to_nat n.
Proof. unfold range. now rewrite length_map, length_seq. Qed.

Lemma NoDup_list_prod {A B : Type} (l : list A) (l' : list B) :
  NoDup l -> NoDup l' -> NoDup (list_prod l l').
Proof.
  intros Hl Hl'. induction Hl as [|a l Ha Hl IH]; simpl; [constructor|].
  apply NoDup_app.
  - apply NoDup_map_NoDup_ForallPairs; [|assumption].
    intros b b' _ _ H. now inversion H.
  - assumption.
  - intros [a' b'] Hin Hin'.
    apply in_map_iff in Hin as (b & Hb & _). inversion Hb; subst.
    apply in_prod_iff in Hin' as [Hin' _]. contradiction.
Qed.

Lemma allCells_In (g : GridSize) (c : Cell) : In c (allCells g) <-> inGrid g c.
Proof.
  unfold allCells, inGrid. rewrite in_map_iff. split.
  - intros ([a b] & <- & H). apply in_prod_iff in H as [Ha Hb].
    apply range_In in Ha, Hb. simpl. lia.
  - intros [Hx Hy]. exists (x c, y c). split; [now destruct c|].
    apply in_prod_iff. split; now apply range_In.
Qed.

Lemma allCells_NoDup (g : GridSize) : NoDup (allCells g).
Proof.
  unfold allCells. apply NoDup_map_NoDup_ForallPairs.
  - intros [a b] [a' b'] _ _ H. simpl in H. now inversion H.
  - apply NoDup_list_prod; apply range_NoDup.
Qed.

Lemma allCells_length (g : GridSize) :
  1 <= width g -> 1 <= height g ->
  Z.of_nat (List.length (allCells g)) = width g * height g.
Proof.
  intros Hw Hh. unfold allCells.
  rewrite length_map, length_prod, !range_length. nia.
Qed.

(** Pigeonhole: a forbidden set inside a list shorter than the number of grid
    cells leaves a grid cell free. *)
Lemma free_cell_exists (g : GridSize) (forbidden : Cell -> bool) (L : list Cell) :
  1 <= width g -> 1 <= height g ->
  (forall c, forbidden c = true -> In c L) ->
  Z.of_nat (List.length L) < width g * height g ->
  exists c, inGrid g c /\ forbidden c = false.
Proof.
  intros Hw Hh Hcov Hlen.
  destruct (existsb (fun c => negb (forbidden c)) (allCells g)) eqn:E.
  - apply existsb_exists in E as (c & Hin & Hc). exists c.
    split; [now apply allCells_In | now apply negb_true_iff].
  - exfalso.
    assert (Hincl : incl (allCells g) L).
    { intros c Hin. apply Hcov.
      destruct (forbidden c) eqn:F; [reflexivity|].
      rewrite <- E. apply existsb_exists.
      exists c. split; [assumption | now rewrite F]. }
    apply NoDup_incl_length in Hincl; [|apply allCells_NoDup].
    pose proof (allCells_length g Hw Hh). lia.
Qed.

Lemma forbiddenForFood_false (snake0 obstacles0 : list Cell) (c : Cell) :
  forbiddenForFood snake0 obstacles0 c = false
  <-> ~ In c snake0 /\ ~ In c obstacles0.
Proof.
  unfold forbiddenForFood.
  now rewrite orb_false_iff, !some_sameCell_notIn.
Qed.

Lemma forbiddenForObstacle_false (snake0 newObstacles : list Cell)
      (food0 c : Cell) :
  forbiddenForObstacle snake0 newObstacles food0 c = false
  <-> ~ In c snake0 /\ ~ In c newObstacles /\ c <> food0.
Proof.
  unfold forbiddenForObstacle.
  rewrite !orb_false_iff, !some_sameCell_notIn.
  assert (H : sameCell food0 c = false <-> c <> food0).
  { destruct (sameCell food0 c) eqn:E.
    - apply sameCell_eq in E. split; [discriminate | congruence].
    - split; [|reflexivity]. intros _ ->.
      assert (sameCell food0 food0 = true) by now apply sameCell_eq.
      congruence. }
  rewrite H. tauto.
Qed.

Lemma forbidden_true_In (forbidden : Cell -> bool) (l : list Cell) (c : Cell) :
  (forbidden c = false <-> ~ In c l) -> forbidden c = true ->
  In c (nodup Cell_eq_dec l).
Proof.
  intros H Ht. apply nodup_In.
  destruct (in_dec Cell_eq_dec c l) as [Hin|Hout]; [assumption|].
  apply H in Hout. congruence.
Qed.

(** With a fair stream of numbers in [0, 1) and a free grid cell left, a
    placement returns a grid cell outside the forbidden set. *)
Lemma placeRandomCell_terminates (random : nat -> Q) (g : GridSize)
      (forbidden : Cell -> bool) (L : list Cell) (k : nat) :
  unitInterval random -> 1 <= width g -> 1 <= height g ->
  fairFrom random g k ->
  (forall c, forbidden c = true -> In c L) ->
  Z.of_nat (List.length L) < width g * height g ->
  exists fuel c j,
    placeRandomCell random fuel g forbidden k = Some (c, (2 * S j + k)%nat)
    /\ inGrid g c /\ forbidden c = false.
Proof.
  intros Hr Hw Hh Hfair Hcov Hlen.
  destruct (free_cell_exists g forbidden L Hw Hh Hcov Hlen) as (c0 & Hin0 & Hf0).
  destruct (Hfair c0 Hin0) as (j0 & Hj0).
  destruct (placeRandomCell_hit random g forbidden j0 k) as (c & k' & Hp).
  { now rewrite Hj0. }
  destruct (placeRandomCell_sound random _ _ _ _ _ _ Hp) as (Hf & j & Hc & Hk).
  exists (S j0), c, j. subst k'. split; [assumption|].
  split; [|assumption]. rewrite Hc. now apply randomCell_inGrid.
Qed.

(** C9: when the forbidden cells number fewer than the cells of the grid
    (width and height at least 1), the sampling loop of [generateFood] and
    the inner loop of [generateObstacles] return, within some number of
    iterations, a cell that is inside the grid and outside the forbidden set;
    the random numbers are in [0, 1) and draw every grid cell at some time. *)
Theorem placement_terminates
        (random : nat -> Q) (g : GridSize)
        (snake0 obstacles0 newObstacles : list Cell) (food0 : Cell) (k : nat) :
  unitInterval random ->
  1 <= width g -> 1 <= height g ->
  fairFrom random g k ->
  (cellCount (snake0 ++ obstacles0) < width g * height g ->
   exists fuel c k',
     generateFood_loop random fuel g snake0 obstacles0 k = Some (c, k')
     /\ inGrid g c /\ ~ In c snake0 /\ ~ In c obstacles0)
  /\ (cellCount (snake0 ++ newObstacles ++ [food0]) < width g * height g ->
      exists fuel c k',
        generateObstacles_loop random fuel g snake0 newObstacles food0 k
        = Some (c, k')
        /\ inGrid g c /\ ~ In c snake0 /\ ~ In c newObstacles /\ c <> food0).
Proof.
  intros Hr Hw Hh Hfair. split; intros Hcap.
  - destruct (placeRandomCell_terminates random g
                (forbiddenForFood snake0 obstacles0)
                (nodup Cell_eq_dec (snake0 ++ obstacles0)) k)
      as (fuel & c & j & Hp & Hin & Hf); try assumption.
    { intros c. apply forbidden_true_In.
      rewrite forbiddenForFood_false, in_app_iff. tauto. }
    exists fuel, c, (2 * S j + k)%nat.
    rewrite generateFood_loop_place. split; [assumption|].
    split; [assumption|]. now apply forbiddenForFood_false.
  - destruct (placeRandomCell_terminates random g
                (forbiddenForObstacle snake0 newObstacles food0)
                (nodup Cell_eq_dec (snake0 ++ newObstacles ++ [food0])) k)
      as (fuel & c & j & Hp & Hin & Hf); try assumption.
    { intros c. apply forbidden_true_In.
      rewrite forbiddenForObstacle_false, !in_app_iff. simpl.
      split; [intros (H1 & H2 & H3) [H|[H|[H|[]]]]; congruence|].
      intros H. repeat split; intro; apply H; auto. }
    exists fuel, c, (2 * S j + k)%nat.
    rewrite generateObstacles_loop_place. split; [assumption|].
    split; [assumption|]. now apply forbiddenForObstacle_false.
Qed.

Lemma cycle4_unitInterval : unitInterval cycle4.
Proof.
  intros i. induction i as [i IH] using lt_wf_ind.
  destruct i as [|[|[|[|[|[|[|[|n]]]]]]]];
    try (split; unfold Qle, Qlt; simpl; lia).
  simpl. apply IH. lia.
Qed.

Lemma cycle4_period (q n : nat) :
  randomCell cycle4 grid2 (8 * q + n) = randomCell cycle4 grid2 n.
Proof.
  induction q as [|q IH]; [reflexivity|].
  replace (8 * S q + n)%nat with (8 + (8 * q + n))%nat by lia.
  rewrite <- IH. reflexivity.
Qed.

Lemma cycle4_fair : fair cycle4 grid2 0.
Proof.
  intros j [cx cy] [[Hx0 Hx1] [Hy0 Hy1]]. simpl in Hx0, Hx1, Hy0, Hy1.
  assert (Hx : cx = 0 \/ cx = 1) by lia.
  assert (Hy : cy = 0 \/ cy = 1) by lia.
  assert (Hpos : forall t, (2 * (3 * j + t) + (2 * j + 0) = 8 * j + 2 * t)%nat)
    by (intros; lia).
  destruct Hx as [-> | ->], Hy as [-> | ->].
  - exists (3 * j + 0)%nat. rewrite Hpos, cycle4_period. reflexivity.
  - exists (3 * j + 2)%nat. rewrite Hpos, cycle4_period. reflexivity.
  - exists (3 * j + 1)%nat. rewrite Hpos, cycle4_period. reflexivity.
  - exists (3 * j + 3)%nat. rewrite Hpos, cycle4_period. reflexivity.
Qed.

Lemma cycle4_fairFrom_0 : fairFrom cycle4 grid2 0.
Proof. exact (cycle4_fair 0%nat). Qed.

Lemma placement_terminates_witness :
  unitInterval cycle4
  /\ 1 <= width grid2 /\ 1 <= height grid2
  /\ fairFrom cycle4 grid2 0
  /\ cellCount ([mkCell 0 0] ++ [mkCell 1 0]) < width grid2 * height grid2
  /\ (exists fuel c k',
         generateFood_loop cycle4 fuel grid2 [mkCell 0 0] [mkCell 1 0] 0
         = Some (c, k')
         /\ inGrid grid2 c /\ ~ In c [mkCell 0 0] /\ ~ In c [mkCell 1 0])
  /\ cellCount ([mkCell 0 0] ++ [mkCell 1 0] ++ [mkCell 0 1])
     < width grid2 * height grid2
  /\ (exists fuel c k',
         generateObstacles_loop cycle4 fuel grid2 [mkCell 0 0] [mkCell 1 0]
                                (mkCell 0 1) 0
         = Some (c, k')
         /\ inGrid grid2 c /\ ~ In c [mkCell 0 0] /\ ~ In c [mkCell 1 0]
         /\ c <> mkCell 0 1).
Proof.
  assert (Hw : 1 <= width grid2) by (simpl; lia).
  assert (Hh : 1 <= height grid2) by (simpl; lia).
  assert (H1 : cellCount ([mkCell 0 0] ++ [mkCell 1 0])
               < width grid2 * height grid2) by (vm_compute; reflexivity).
  assert (H2 : cellCount ([mkCell 0 0] ++ [mkCell 1 0] ++ [mkCell 0 1])
               < width grid2 * height grid2) by (vm_compute; reflexivity).
  destruct (placement_terminates cycle4 grid2 [mkCell 0 0] [mkCell 1 0]
              [mkCell 1 0] (mkCell 0 1) 0 cycle4_unitInterval Hw Hh
              cycle4_fairFrom_0) as [Hfood Hobstacle].
  split; [exact cycle4_unitInterval|].
  split; [exact Hw|]. split; [exact Hh|].
  split; [exact cycle4_fairFrom_0|].
  split; [exact H1|]. split; [exact (Hfood H1)|].
  split; [exact H2|]. exact (Hobstacle H2).
Defined.

(** Without fairness nothing forces a loop to stop: on the stream that draws
    (0,0) for ever, with (0,0) on the snake, the food loop runs out of any
    iteration bound although 399 grid cells are free. *)
Lemma stuck_never_places (fuel k : nat) :
  generateFood_loop stuck fuel grid20 [mkCell 0 0] [] k = None.
Proof.
  revert k. induction fuel as [|fuel IH]; intros k; [reflexivity|].
  simpl. apply IH.
Qed.

(** ** Food and obstacle generation *)

Section Generation.

Variable random : nat -> Q.

Lemma generateFood_inv (fuel : nat) (r p : State) (k : nat)
      (p' : State) (k' : nat) :
  generateFood random fuel r p k = Some (p', k') ->
  exists c,
    generateFood_loop random fuel (gridSize r) (snake r) (obstacles r) k
    = Some (c, k')
    /\ p' = setFood c p.
Proof.
  unfold generateFood, bind, ret.
  destruct (generateFood_loop random fuel _ _ _ k) as [[c k1]|];
    [|discriminate].
  intros H. injection H as <- <-. eauto.
Qed.

Lemma generateObstacles_inv (fuel : nat) (r p : State) (k : nat)
      (p' : State) (k' : nat) :
  generateObstacles random fuel r p k = Some (p', k') ->
  exists l,
    generateObstacles_for random fuel (obstacleCount (difficulty r))
                          (gridSize r) (snake r) [] (food r) k
    = Some (l, k')
    /\ p' = setObstacles l p.
Proof.
  unfold generateObstacles, bind, ret.
  destruct (generateObstacles_for random fuel _ _ _ _ _ k) as [[l k1]|];
    [|discriminate].
  intros H. injection H as <- <-. eauto.
Qed.

(** The food that [generateFood] sets is off the snake and the obstacles of
    the snapshot. *)
Lemma generateFood_sound (fuel : nat) (r p : State) (k : nat)
      (p' : State) (k' : nat) :
  generateFood random fuel r p k = Some (p', k') ->
  p' = setFood (food p') p
  /\ ~ In (food p') (snake r) /\ ~ In (food p') (obstacles r).
Proof.
  intros H. apply generateFood_inv in H as (c & Hl & ->).
  rewrite generateFood_loop_place in Hl.
  apply placeRandomCell_sound in Hl as [Hf _].
  apply forbiddenForFood_false in Hf. simpl. tauto.
Qed.

(** The [for] loop appends exactly [n] cells, pairwise distinct, off the
    snake, off the cells already in the array and off the food. *)
Lemma generateObstacles_for_sound (fuel n : nat) (g : GridSize)
      (snake0 : list Cell) (food0 : Cell) :
  forall (acc : list Cell) (k : nat) (l : list Cell) (k' : nat),
    generateObstacles_for random fuel n g snake0 acc food0 k = Some (l, k') ->
    exists added,
      l = acc ++ added /\ List.length added = n /\ NoDup added
      /\ forall c, In c added ->
                   ~ In c snake0 /\ ~ In c acc /\ c <> food0.
Proof.
  induction n as [|n IH]; intros acc k l k'; simpl.
  - unfold ret. intros H. injection H as <- <-.
    exists []. rewrite app_nil_r. repeat split; [constructor | contradiction..].
  - unfold bind.
    destruct (generateObstacles_loop random fuel g snake0 acc food0 k)
      as [[o k1]|] eqn:El; [|discriminate].
    intros H. apply IH in H as (added & -> & Hlen & Hnd & Hall).
    rewrite generateObstacles_loop_place in El.
    apply placeRandomCell_sound in El as [Hf _].
    apply forbiddenForObstacle_false in Hf as (Hs & Ha & Hfd).
    exists (o :: added). rewrite <- app_assoc. simpl.
    split; [reflexivity|]. split; [now rewrite Hlen|]. split.
    + constructor; [|assumption].
      intros Hin. apply Hall in Hin as (_ & Hin & _).
      apply Hin. apply in_or_app. right. now left.
    + intros c [<-|Hin]; [tauto|].
      apply Hall in Hin as (H1 & H2 & H3).
      repeat split; try assumption.
      intros Hc. apply H2. apply in_or_app. now left.
Qed.

(** A batch is a new array of exactly [obstacleCount] pairwise distinct
    cells, off the snake and the food of the snapshot; it replaces the
    obstacles of before. *)
Lemma generateObstacles_sound (fuel : nat) (r p : State) (k : nat)
      (p' : State) (k' : nat) :
  generateObstacles random fuel r p k = Some (p', k') ->
  p' = setObstacles (obstacles p') p
  /\ List.length (obstacles p') = obstacleCount (difficulty r)
  /\ NoDup (obstacles p')
  /\ forall c, In c (obstacles p') -> ~ In c (snake r) /\ c <> food r.
Proof.
  intros H. apply generateObstacles_inv in H as (l & Hl & ->).
  apply generateObstacles_for_sound in Hl as (added & -> & Hlen & Hnd & Hall).
  simpl. repeat split; try assumption; apply (Hall c); assumption.
Qed.

Lemma generateObstacles_for_mono (fuel fuel' n : nat) (g : GridSize)
      (snake0 : list Cell) (food0 : Cell) :
  (fuel <= fuel')%nat ->
  forall (acc : list Cell) (k : nat) (r : list Cell * nat),
    generateObstacles_for random fuel n g snake0 acc food0 k = Some r ->
    generateObstacles_for random fuel' n g snake0 acc food0 k = Some r.
Proof.
  intros Hle. induction n as [|n IH]; intros acc k r; simpl; [trivial|].
  unfold bind.
  destruct (generateObstacles_loop random fuel g snake0 acc food0 k)
    as [[o k1]|] eqn:El; [|discriminate].
  rewrite generateObstacles_loop_place in El.
  apply placeRandomCell_mono with (fuel' := fuel') in El; [|assumption].
  rewrite <- generateObstacles_loop_place in El. rewrite El.
  apply IH.
Qed.

Lemma fair_later (g : GridSize) (j k : nat) :
  fair random g k -> fair random g (2 * j + k).
Proof.
  intros Hf i.
  replace (2 * i + (2 * j + k))%nat with (2 * (i + j) + k)%nat by lia.
  apply Hf.
Qed.

Lemma fair_fairFrom (g : GridSize) (k : nat) :
  fair random g k -> fairFrom random g k.
Proof. intros Hf. exact (Hf 0%nat). Qed.

(** With room for [n] more obstacles the [for] loop returns. *)
Lemma generateObstacles_for_terminates (g : GridSize)
      (snake0 : list Cell) (food0 : Cell) :
  unitInterval random -> 1 <= width g -> 1 <= height g ->
  forall (n : nat) (acc : list Cell) (k : nat),
    fair random g k ->
    cellCount (snake0 ++ [food0]) + Z.of_nat (List.length acc) + Z.of_nat n
    <= width g * height g ->
    exists fuel l j,
      generateObstacles_for random fuel n g snake0 acc food0 k
      = Some (l, (2 * j + k)%nat).
Proof.
  intros Hr Hw Hh. induction n as [|n IH]; intros acc k Hfair Hcap.
  - exists 0%nat, acc, 0%nat. reflexivity.
  - destruct (placeRandomCell_terminates random g
                (forbiddenForObstacle snake0 acc food0)
                (nodup Cell_eq_dec (snake0 ++ [food0]) ++ acc) k)
      as (fuel1 & o & j1 & Hp & _ & _); try assumption.
    + now apply fair_fairFrom.
    + intros c Hc.
      destruct (in_dec Cell_eq_dec c
                       (nodup Cell_eq_dec (snake0 ++ [food0]) ++ acc))
        as [Hin|Hout]; [assumption|].
      assert (Hfree : forbiddenForObstacle snake0 acc food0 c = false).
      { apply forbiddenForObstacle_false.
        rewrite in_app_iff, nodup_In, in_app_iff in Hout. simpl in Hout.
        repeat split; intro; apply Hout; auto. }
      congruence.
    + rewrite length_app. unfold cellCount in Hcap. lia.
    + destruct (IH (acc ++ [o]) (2 * S j1 + k)%nat) as (fuel2 & l & j2 & Hrec).
      * now apply fair_later.
      * rewrite last_length. lia.
      * exists (Nat.max fuel1 fuel2), l, (j2 + S j1)%nat.
        replace (2 * (j2 + S j1) + k)%nat
          with (2 * j2 + (2 * S j1 + k))%nat by lia.
        cbn [generateObstacles_for]. unfold bind.
        rewrite generateObstacles_loop_place.
        rewrite (placeRandomCell_mono random fuel1 (Nat.max fuel1 fuel2)
                   _ _ _ _ Hp) by lia.
        apply generateObstacles_for_mono with (fuel := fuel2); [lia|assumption].
Qed.

End Generation.

(** ** The cases of a tick *)

Section Tick.

Variable random : nat -> Q.

(** A tick that returns went one of four ways: empty snake, collision,
    plain move, or a move onto the food. *)
Lemma moveSnake_cases (fuel : nat) (s : State) (k : nat)
      (s' : State) (k' : nat) :
  moveSnake random fuel s s k = Some (s', k') ->
  (snake s = [] /\ s' = s /\ k' = k)
  \/ exists first rest head,
      snake s = first :: rest
      /\ head = newHead (gridSize s) (direction s) first
      /\ ((collides head (obstacles s) (snake s) = true
           /\ s' = setSnake (snake s) (setIsPlaying false (setGameOver true s))
           /\ k' = k)
          \/ (collides head (obstacles s) (snake s) = false
              /\ sameCell head (food s) = false
              /\ s' = setSnake (removelast (head :: snake s)) s
              /\ k' = k)
          \/ (collides head (obstacles s) (snake s) = false
              /\ sameCell head (food s) = true
              /\ exists c l,
                  s' = setSnake (head :: snake s)
                         (setObstacles l
                            (setFood c (setScore (score s + 1) s)))
                  /\ ~ In c (snake s) /\ ~ In c (obstacles s)
                  /\ if milestone s
                     then List.length l = obstacleCount (difficulty s)
                          /\ NoDup l
                          /\ forall o, In o l ->
                                       ~ In o (snake s) /\ o <> food s
                     else l = obstacles s)).
Proof.
  unfold moveSnake.
  destruct (snake s) as [|first rest] eqn:Hs.
  { unfold ret. intros H. injection H as <- <-. left. auto. }
  intros H. right. exists first, rest, (newHead (gridSize s) (direction s) first).
  split; [reflexivity|]. split; [reflexivity|].
  destruct (collides _ (obstacles s) (first :: rest)) eqn:Hc.
  { left. unfold ret in H. injection H as <- <-. auto. }
  right.
  destruct (sameCell _ (food s)) eqn:Hf.
  2:{ left. unfold ret in H. injection H as <- <-. auto. }
  right. split; [reflexivity|]. split; [reflexivity|].
  unfold bind in H.
  destruct (generateFood random fuel s (setScore (score s + 1) s) k)
    as [[p2 k2]|] eqn:Hfood; [|discriminate].
  apply generateFood_sound in Hfood as (Hp2 & Hfs & Hfo).
  fold (milestone s) in H.
  destruct (milestone s).
  - destruct (generateObstacles random fuel s p2 k2) as [[p3 k3]|] eqn:Hobs;
      [|discriminate].
    apply generateObstacles_sound in Hobs as (Hp3 & Hlen & Hnd & Hall).
    unfold ret in H. injection H as <- <-.
    exists (food p2), (obstacles p3). rewrite Hs in *.
    split; [|repeat split; try assumption; apply Hall; assumption].
    rewrite Hp3, Hp2. reflexivity.
  - unfold ret in H. injection H as <- <-.
    exists (food p2), (obstacles s). rewrite Hs in *.
    split; [|repeat split; assumption].
    rewrite Hp2. reflexivity.
Qed.

(** With fair random numbers and room on the grid, every tick returns. *)
Lemma moveSnake_terminates (s : State) (k : nat) :
  unitInterval random ->
  1 <= width (gridSize s) -> 1 <= height (gridSize s) ->
  fair random (gridSize s) k ->
  roomForTick s ->
  exists fuel s' k', moveSnake random fuel s s k = Some (s', k').
Proof.
  intros Hr Hw Hh Hfair [Hroom Hbatch]. unfold moveSnake.
  destruct (snake s) as [|first rest] eqn:Hs.
  { exists 0%nat. unfold ret. eauto. }
  destruct (collides _ (obstacles s) (first :: rest)).
  { exists 0%nat. unfold ret. eauto. }
  destruct (sameCell _ (food s)).
  2:{ exists 0%nat. unfold ret. eauto. }
  destruct (placeRandomCell_terminates random (gridSize s)
              (forbiddenForFood (snake s) (obstacles s))
              (nodup Cell_eq_dec (snake s ++ obstacles s)) k)
    as (fuel1 & c & j1 & Hp & _ & _); try assumption.
  { now apply fair_fairFrom. }
  { intros c. apply forbidden_true_In.
    rewrite forbiddenForFood_false, in_app_iff. tauto. }
  { rewrite Hs. exact Hroom. }
  fold (milestone s). unfold bind, generateFood, generateObstacles, bind, ret.
  destruct (milestone s).
  - destruct (generateObstacles_for_terminates random (gridSize s)
                (snake s) (food s) Hr Hw Hh
                (obstacleCount (difficulty s)) [] (2 * S j1 + k)%nat)
      as (fuel2 & l & j2 & Hfor).
    { now apply fair_later. }
    { simpl List.length. specialize (Hbatch eq_refl). rewrite Hs. lia. }
    exists (Nat.max fuel1 fuel2).
    rewrite generateFood_loop_place.
    rewrite (placeRandomCell_mono random fuel1 (Nat.max fuel1 fuel2)
               _ _ _ _ Hp) by lia.
    rewrite (generateObstacles_for_mono random fuel2 (Nat.max fuel1 fuel2)
               _ _ _ _ ltac:(lia) _ _ _ Hfor).
    eauto.
  - exists fuel1. rewrite generateFood_loop_place, Hp. eauto.
Qed.

End Tick.

(** ** Growth of the snake *)

(** C6: on a tick that does not end the game, the snake becomes the new head
    followed by the whole old snake when the new head is on the food (one
    cell longer), and the new head followed by the old snake without its
    last cell otherwise (same length).  A tick off the food always returns;
    a tick onto the food returns when the random numbers are fair and the
    grid has room. *)
Theorem growth_law
        (random : nat -> Q) (s : State)
        (first : Cell) (rest : list Cell) (head : Cell) :
  snake s = first :: rest ->
  head = newHead (gridSize s) (direction s) first ->
  ~ In head (obstacles s) ->
  ~ In head (snake s) ->
  (forall fuel k s' k',
      moveSnake random fuel s s k = Some (s', k') ->
      snake s' = (if Cell_eq_dec head (food s)
                  then head :: snake s
                  else removelast (head :: snake s))
      /\ List.length (snake s')
         = if Cell_eq_dec head (food s)
           then S (List.length (snake s))
           else List.length (snake s))
  /\ (head <> food s ->
      forall fuel k, exists s', moveSnake random fuel s s k = Some (s', k))
  /\ (forall k,
         unitInterval random ->
         1 <= width (gridSize s) -> 1 <= height (gridSize s) ->
         fair random (gridSize s) k ->
         roomForTick s ->
         exists fuel s' k', moveSnake random fuel s s k = Some (s', k')).
Proof.
  intros Hs -> Ho Hn.
  set (head := newHead (gridSize s) (direction s) first) in *.
  assert (Hc : collides head (obstacles s) (snake s) = false)
    by now apply collides_free.
  split; [|split].
  - intros fuel k s' k' H.
    apply moveSnake_cases in H
      as [(He & _) | (first' & rest' & head' & Hs' & Hh' & Hcase)];
      [congruence|].
    assert (first' = first) by congruence. subst first'.
    fold head in Hh'. subst head'.
    destruct Hcase as [(Hc' & _) | [(_ & Hf & -> & _) | (_ & Hf & c & l & -> & _)]].
    + congruence.
    + destruct (Cell_eq_dec head (food s)) as [E|E].
      * apply sameCell_eq in E. congruence.
      * simpl snake. split; [reflexivity|]. apply removelast_cons_length.
    + destruct (Cell_eq_dec head (food s)) as [E|E].
      * simpl. split; reflexivity.
      * apply sameCell_eq in Hf. contradiction.
  - intros Hf fuel k. eexists.
    eapply moveSnake_quiet; [eassumption | assumption |].
    fold head. destruct (sameCell head (food s)) eqn:E; [|reflexivity].
    apply sameCell_eq in E. contradiction.
  - intros k. apply moveSnake_terminates.
Qed.

Lemma growth_law_witness :
  (snake foodAhead = mkCell 10 10 :: []
   /\ mkCell 11 10 = newHead (gridSize foodAhead) (direction foodAhead) (mkCell 10 10)
   /\ ~ In (mkCell 11 10) (obstacles foodAhead)
   /\ ~ In (mkCell 11 10) (snake foodAhead)
   /\ exists s', moveSnake (randomOf 20 [5; 5]) 1 foodAhead foodAhead 0%nat
                 = Some (s', 2%nat)
                 /\ snake s' = [mkCell 11 10; mkCell 10 10]
                 /\ List.length (snake s') = 2%nat)
  /\ (snake corner = mkCell 0 0 :: []
      /\ mkCell 1 0 = newHead (gridSize corner) (direction corner) (mkCell 0 0)
      /\ ~ In (mkCell 1 0) (obstacles corner)
      /\ ~ In (mkCell 1 0) (snake corner)
      /\ unitInterval cycle4
      /\ fair cycle4 (gridSize corner) 0
      /\ roomForTick corner
      /\ exists fuel s' k', moveSnake cycle4 fuel corner corner 0%nat
                            = Some (s', k')).
Proof.
  split.
  - assert (Ho : ~ In (mkCell 11 10) (obstacles foodAhead)) by (simpl; tauto).
    assert (Hn : ~ In (mkCell 11 10) (snake foodAhead)).
    { simpl. intros [H|[]]. discriminate H. }
    split; [reflexivity|]. split; [reflexivity|].
    split; [exact Ho|]. split; [exact Hn|].
    exists afterFood. split; [reflexivity|].
    exact (proj1 (growth_law (randomOf 20 [5; 5]) foodAhead (mkCell 10 10) []
                    (mkCell 11 10) eq_refl eq_refl Ho Hn)
                 1%nat 0%nat _ 2%nat eq_refl).
  - assert (Ho : ~ In (mkCell 1 0) (obstacles corner)) by (simpl; tauto).
    assert (Hn : ~ In (mkCell 1 0) (snake corner)).
    { simpl. intros [H|[]]. discriminate H. }
    assert (Hroom : roomForTick corner).
    { split; [vm_compute; reflexivity|]. intros H. discriminate H. }
    split; [reflexivity|]. split; [reflexivity|].
    split; [exact Ho|]. split; [exact Hn|].
    split; [exact cycle4_unitInterval|].
    split; [exact cycle4_fair|]. split; [exact Hroom|].
    apply (proj2 (proj2 (growth_law cycle4 corner (mkCell 0 0) []
                           (mkCell 1 0) eq_refl eq_refl Ho Hn)) 0%nat).
    + exact cycle4_unitInterval.
    + simpl; lia.
    + simpl; lia.
    + exact cycle4_fair.
    + exact Hroom.
Defined.

(** ** Obstacles at score milestones *)

(** C1 (the code departs from it): in a game played from the first render,
    the tick that takes the score from 4 to 5 leaves the ten obstacles as
    they are, because the test reads the score of before the tick; the next
    tick onto the food, from 5 to 6, replaces them by a new batch of ten, so
    the obstacle set does not grow either. *)
Theorem milestone_reads_score_before_tick :
  run randomMilestone 5 [Resize 400 400; ClickStart; Tick; Tick; Tick; Tick]
      initialState 0%nat = Some (atScore4, 30%nat)
  /\ step randomMilestone 5 Tick atScore4 30%nat = Some (atScore5, 32%nat)
  /\ score atScore4 = 4 /\ score atScore5 = 5
  /\ obstacles atScore5 = obstacles atScore4
  /\ List.length (obstacles atScore4) = obstacleCount (difficulty atScore4)
  /\ step randomMilestone 5 Tick atScore5 32%nat = Some (atScore6, 54%nat)
  /\ score atScore6 = 6
  /\ List.length (obstacles atScore6) = obstacleCount (difficulty atScore5)
  /\ forall c, In c (obstacles atScore5) -> ~ In c (obstacles atScore6).
Proof.
  repeat (split; [reflexivity|]).
  intros c Hc Hc'. simpl in Hc, Hc'.
  repeat (destruct Hc as [Hc|Hc];
          [subst c; repeat (destruct Hc' as [Hc'|Hc']; [discriminate Hc'|]);
           exact Hc'|]).
  exact Hc.
Qed.

(** ** Placement and the state it reads *)

(** C2 (the code departs from it): the placements test the snake, food and
    obstacles of the last render, not those set in the same handler.  On the
    first start the food and the first obstacle can both be drawn at (3,3);
    on a tick that eats, the next food can be drawn on the eaten food's cell,
    which is the new head of the snake. *)
Theorem placement_reads_snapshot :
  step randomStart 5 (Resize 400 400) initialState 0%nat = Some (mounted, 0%nat)
  /\ step randomStart 5 ClickStart mounted 0%nat = Some (afterStart, 22%nat)
  /\ In (food afterStart) (obstacles afterStart)
  /\ placementOk afterStart = false
  /\ step randomEat 5 ClickStart mounted 0%nat = Some (beforeEat, 22%nat)
  /\ placementOk beforeEat = true
  /\ step randomEat 5 Tick beforeEat 22%nat = Some (afterEat, 24%nat)
  /\ In (food afterEat) (snake afterEat)
  /\ placementOk afterEat = false.
Proof.
  repeat (split; [reflexivity|]).
  split; [left; reflexivity|].
  repeat (split; [reflexivity|]).
  split; [left; reflexivity|].
  reflexivity.
Qed.

(** ** The over state *)

Lemma handleKeyPress_frame (key : string) (s : State) :
  snake (handleKeyPress key s) = snake s
  /\ food (handleKeyPress key s) = food s
  /\ obstacles (handleKeyPress key s) = obstacles s
  /\ score (handleKeyPress key s) = score s
  /\ gameOver (handleKeyPress key s) = gameOver s
  /\ isPlaying (handleKeyPress key s) = isPlaying s.
Proof.
  unfold handleKeyPress.
  destruct (key =? "ArrowUp")%string;
    [|destruct (key =? "ArrowDown")%string;
      [|destruct (key =? "ArrowLeft")%string;
        [|destruct (key =? "ArrowRight")%string]]];
    repeat split.
Qed.

Section Over.

Variable random : nat -> Q.

(** What a start that returns has set. *)
Lemma startGame_inv (fuel : nat) (s : State) (k : nat) (s' : State) (k' : nat) :
  startGame random fuel s s k = Some (s', k') ->
  gameOver s' = false /\ isPlaying s' = true /\ score s' = 0
  /\ snake s' = INITIAL_SNAKE /\ direction s' = INITIAL_DIRECTION
  /\ List.length (obstacles s') = obstacleCount (difficulty s).
Proof.
  unfold startGame, bind.
  destruct (generateFood random fuel s _ k) as [[p3 k3]|] eqn:Hfood;
    [|discriminate].
  destruct (generateObstacles random fuel s p3 k3) as [[p4 k4]|] eqn:Hobs;
    [|discriminate].
  unfold ret. intros H. injection H as <- <-.
  apply generateFood_sound in Hfood as (Hp3 & _).
  apply generateObstacles_sound in Hobs as (Hp4 & Hlen & _).
  simpl. rewrite Hp4, Hp3. simpl. rewrite Hp4 in Hlen. simpl in Hlen.
  repeat split; assumption.
Qed.

(** Every event keeps: game over implies not playing. *)
Lemma step_over_not_playing (fuel : nat) (e : Event) (s : State) (k : nat)
      (s' : State) (k' : nat) :
  (gameOver s = true -> isPlaying s = false) ->
  step random fuel e s k = Some (s', k') ->
  gameOver s' = true -> isPlaying s' = false.
Proof.
  intros Hinv. destruct e; simpl.
  - destruct (isPlaying s) eqn:Hp.
    + intros H. apply moveSnake_cases in H
        as [(_ & -> & _) | (first & rest & head & _ & _ & Hcase)].
      * intros Hg. apply Hinv in Hg. congruence.
      * destruct Hcase as [(_ & -> & _)
                          | [(_ & _ & -> & _) | (_ & _ & c & l & -> & _)]];
          simpl; intros Hg; try reflexivity; apply Hinv in Hg; congruence.
    + unfold ret. intros H. injection H as <- <-. auto.
  - destruct (isPlaying s) eqn:Hp; unfold ret; intros H;
      injection H as <- <-; [|auto].
    destruct (handleKeyPress_frame key s) as (_ & _ & _ & _ & Hg & Hpl).
    rewrite Hg, Hpl. intros Hover. apply Hinv in Hover. congruence.
  - destruct ((negb (isPlaying s) && negb (gameOver s)) || gameOver s).
    + intros H. apply startGame_inv in H as (Hg & _). congruence.
    + unfold ret. intros H. injection H as <- <-. auto.
  - destruct (isPlaying s) eqn:Hp; unfold ret; intros H;
      injection H as <- <-; [reflexivity|]. intros _. exact Hp.
  - destruct (negb (isPlaying s) && negb (gameOver s) && (0 <? score s))
             eqn:Hguard; unfold ret; intros H; injection H as <- <-; [|auto].
    simpl. intros Hg. rewrite Hg in Hguard.
    rewrite andb_false_r in Hguard. discriminate.
  - unfold ret. intros H. injection H as <- <-. auto.
  - unfold ret. intros H. injection H as <- <-. auto.
Qed.

Lemma reachable_over_not_playing (s : State) (k : nat) :
  reachable random s k -> gameOver s = true -> isPlaying s = false.
Proof.
  induction 1 as [|fuel e s k s' k' _ IH Hstep]; [discriminate|].
  eapply step_over_not_playing; eassumption.
Qed.

(** In the over state every event but a start leaves the game as it is. *)
Lemma over_step (fuel : nat) (e : Event) (s : State) (k : nat) :
  gameOver s = true -> isPlaying s = false -> e <> ClickStart ->
  exists s', step random fuel e s k = Some (s', k)
             /\ snake s' = snake s /\ food s' = food s
             /\ obstacles s' = obstacles s /\ score s' = score s
             /\ gameOver s' = true /\ isPlaying s' = false.
Proof.
  intros Hg Hp He. destruct e; simpl; try rewrite Hp; try rewrite Hg;
    try contradiction; unfold ret; eexists; (split; [reflexivity|]);
    simpl; auto 10.
Qed.

Lemma over_run (fuel : nat) (events : list Event) :
  forall (s : State) (k : nat),
    gameOver s = true -> isPlaying s = false ->
    Forall (fun e => e <> ClickStart) events ->
    exists s', run random fuel events s k = Some (s', k)
               /\ snake s' = snake s /\ food s' = food s
               /\ obstacles s' = obstacles s /\ score s' = score s
               /\ gameOver s' = true /\ isPlaying s' = false.
Proof.
  induction events as [|e events IH]; intros s k Hg Hp Hall.
  - exists s. simpl. unfold ret. auto 10.
  - inversion Hall as [|? ? He Hrest]; subst.
    destruct (over_step fuel e s k Hg Hp He)
      as (s1 & Hstep & Hsn & Hfo & Hob & Hsc & Hg1 & Hp1).
    destruct (IH s1 k Hg1 Hp1 Hrest)
      as (s' & Hrun & Hsn' & Hfo' & Hob' & Hsc' & Hg' & Hp').
    exists s'. simpl. unfold bind. rewrite Hstep.
    split; [assumption|]. repeat split; congruence.
Qed.

(** C8: once the game is over, no tick takes place (the interval does
    nothing) and, through any sequence of events without a start, snake,
    food, obstacles and score stay as they are and the game stays over;
    a start that returns leaves the over state. *)
Theorem over_is_terminal
        (s : State) (k : nat) (fuel : nat) (events : list Event) :
  reachable random s k ->
  gameOver s = true ->
  Forall (fun e => e <> ClickStart) events ->
  step random fuel Tick s k = Some (s, k)
  /\ (exists s', run random fuel events s k = Some (s', k)
                 /\ snake s' = snake s /\ food s' = food s
                 /\ obstacles s' = obstacles s /\ score s' = score s
                 /\ gameOver s' = true /\ isPlaying s' = false)
  /\ (forall s' k', step random fuel ClickStart s k = Some (s', k') ->
                    gameOver s' = false /\ isPlaying s' = true).
Proof.
  intros Hreach Hg Hall.
  pose proof (reachable_over_not_playing s k Hreach Hg) as Hp.
  split; [|split].
  - simpl. rewrite Hp. reflexivity.
  - now apply over_run.
  - simpl. rewrite Hp, Hg. simpl. intros s' k' H.
    apply startGame_inv in H. tauto.
Qed.

End Over.

Lemma crashed_reachable : reachable randomCrash crashed 22.
Proof.
  apply (reachable_step randomCrash 5 Tick beforeCrash 22); [|reflexivity].
  apply (reachable_step randomCrash 5 ClickStart mounted 0); [|reflexivity].
  apply (reachable_step randomCrash 5 (Resize 400 400) initialState 0);
    [|reflexivity].
  apply reachable_init.
Qed.

Lemma over_is_terminal_witness :
  reachable randomCrash crashed 22
  /\ gameOver crashed = true
  /\ Forall (fun e => e <> ClickStart)
            [Tick; KeyDown "ArrowUp"; ClickResume; ClickPause; Tick]
  /\ step randomCrash 5 Tick crashed 22%nat = Some (crashed, 22%nat)
  /\ (exists s', run randomCrash 5
                     [Tick; KeyDown "ArrowUp"; ClickResume; ClickPause; Tick]
                     crashed 22%nat = Some (s', 22%nat)
                 /\ snake s' = snake crashed /\ food s' = food crashed
                 /\ obstacles s' = obstacles crashed /\ score s' = score crashed
                 /\ gameOver s' = true /\ isPlaying s' = false).
Proof.
  assert (Hall : Forall (fun e => e <> ClickStart)
                        [Tick; KeyDown "ArrowUp"; ClickResume; ClickPause; Tick]).
  { repeat constructor; discriminate. }
  split; [exact crashed_reachable|]. split; [reflexivity|].
  split; [exact Hall|].
  destruct (over_is_terminal randomCrash crashed 22 5 _
              crashed_reachable eq_refl Hall) as (Htick & Hrun & _).
  split; [exact Htick | exact Hrun].
Defined.

(** ** Invariants of the reachable states *)

Section Invariants.

Variable random : nat -> Q.

(** The direction is always one of the four unit vectors. *)
Lemma reachable_direction_unit (s : State) (k : nat) :
  reachable random s k -> isUnit (direction s).
Proof.
  induction 1 as [|fuel e s k s' k' _ IH Hstep]; [now left|].
  destruct e; simpl in Hstep.
  - destruct (isPlaying s).
    + apply moveSnake_cases in Hstep
        as [(_ & -> & _) | (first & rest & head & _ & _ & Hcase)];
        [assumption|].
      destruct Hcase as [(_ & -> & _)
                        | [(_ & _ & -> & _) | (_ & _ & c & l & -> & _)]];
        exact IH.
    + unfold ret in Hstep. injection Hstep as <- <-. assumption.
  - destruct (isPlaying s); unfold ret in Hstep; injection Hstep as <- <-;
      [|assumption].
    rewrite handleKeyPress_direction by assumption.
    now apply acceptKey_unit.
  - destruct ((negb (isPlaying s) && negb (gameOver s)) || gameOver s).
    + apply startGame_inv in Hstep as (_ & _ & _ & _ & -> & _). now left.
    + unfold ret in Hstep. injection Hstep as <- <-. assumption.
  - destruct (isPlaying s); unfold ret in Hstep; injection Hstep as <- <-;
      assumption.
  - destruct (negb (isPlaying s) && negb (gameOver s) && (0 <? score s));
      unfold ret in Hstep; injection Hstep as <- <-; assumption.
  - unfold ret in Hstep. injection Hstep as <- <-. assumption.
  - unfold ret in Hstep. injection Hstep as <- <-. assumption.
Qed.

(** The snake always has a head. *)
Lemma reachable_snake_nonempty (s : State) (k : nat) :
  reachable random s k -> snake s <> [].
Proof.
  induction 1 as [|fuel e s k s' k' _ IH Hstep]; [discriminate|].
  destruct e; simpl in Hstep.
  - destruct (isPlaying s).
    + apply moveSnake_cases in Hstep
        as [(_ & -> & _) | (first & rest & head & Hs & _ & Hcase)];
        [assumption|].
      destruct Hcase as [(_ & -> & _)
                        | [(_ & _ & -> & _) | (_ & _ & c & l & -> & _)]].
      * assumption.
      * change (removelast (head :: snake s) <> []).
        intros E. apply (f_equal (@List.length Cell)) in E.
        rewrite removelast_cons_length, Hs in E. discriminate.
      * discriminate.
    + unfold ret in Hstep. injection Hstep as <- <-. assumption.
  - destruct (isPlaying s); unfold ret in Hstep; injection Hstep as <- <-;
      [|assumption].
    destruct (handleKeyPress_frame key s) as (-> & _). assumption.
  - destruct ((negb (isPlaying s) && negb (gameOver s)) || gameOver s).
    + apply startGame_inv in Hstep as (_ & _ & _ & -> & _). discriminate.
    + unfold ret in Hstep. injection Hstep as <- <-. assumption.
  - destruct (isPlaying s); unfold ret in Hstep; injection Hstep as <- <-;
      assumption.
  - destruct (negb (isPlaying s) && negb (gameOver s) && (0 <? score s));
      unfold ret in Hstep; injection Hstep as <- <-; assumption.
  - unfold ret in Hstep. injection Hstep as <- <-. assumption.
  - unfold ret in Hstep. injection Hstep as <- <-. assumption.
Qed.

End Invariants.

(** * Further properties of the code *)

(** ** The head after a tick *)

Lemma wrapped_in_range (dimension v : Z) :
  1 <= dimension -> 0 <= wrapped dimension v < dimension.
Proof.
  intros Hd. unfold wrapped.
  destruct (Z.ltb_spec v 0); [lia|].
  destruct (Z.geb_spec v dimension); lia.
Qed.

Lemma newHead_lands_on_grid (g : GridSize) (d : Direction) (c : Cell) :
  1 <= width g -> 1 <= height g -> inGrid g (newHead g d c).
Proof.
  intros Hw Hh. rewrite newHead_wrapped.
  split; now apply wrapped_in_range.
Qed.

(** X1: on a grid with at least one cell the head computed by a tick is a
    cell of the grid, wherever the old head is (also outside the grid, as
    after a resize) and whatever the direction vector. *)
Theorem newHead_in_grid (g : GridSize) (d : Direction) (c : Cell) :
  1 <= width g -> 1 <= height g -> inGrid g (newHead g d c).
Proof.
  intros Hw Hh.
  pose proof (wraparound_x := wrapped_in_range (width g) (x c + x d) Hw).
  pose proof (wraparound_y := wrapped_in_range (height g) (y c + y d) Hh).
  rewrite newHead_wrapped. unfold inGrid. simpl. split; assumption.
Qed.

Lemma newHead_in_grid_witness :
  1 <= width grid20 /\ 1 <= height grid20
  /\ ~ inGrid grid20 (mkCell 25 (-3))
  /\ inGrid grid20 (newHead grid20 (mkCell 1 0) (mkCell 25 (-3))).
Proof.
  assert (Hw : 1 <= width grid20) by (simpl; lia).
  assert (Hh : 1 <= height grid20) by (simpl; lia).
  split; [exact Hw|]. split; [exact Hh|]. split.
  - unfold inGrid. simpl. lia.
  - exact (newHead_in_grid grid20 (mkCell 1 0) (mkCell 25 (-3)) Hw Hh).
Defined.

(** X2: on a grid one column wide a sideways move, and on a grid one row
    high an up or down move, wraps the head of a snake that is on the grid
    onto itself: the tick ends the game and the snake stays as it was. *)
Theorem single_file_grid_ends_game
        (random : nat -> Q) (fuel : nat) (s : State) (k : nat)
        (first : Cell) (rest : list Cell) :
  snake s = first :: rest ->
  inGrid (gridSize s) first ->
  (width (gridSize s) = 1 /\ y (direction s) = 0)
  \/ (height (gridSize s) = 1 /\ x (direction s) = 0) ->
  exists s', moveSnake random fuel s s k = Some (s', k)
             /\ gameOver s' = true /\ isPlaying s' = false
             /\ snake s' = snake s /\ score s' = score s.
Proof.
  intros Hs [[Hx0 Hx1] [Hy0 Hy1]] Hdir.
  assert (Hsame : newHead (gridSize s) (direction s) first = first).
  { rewrite newHead_wrapped. unfold wrapped. destruct first as [fx fy].
    simpl in *. f_equal;
      repeat match goal with
             | |- context [?a <? ?b] => destruct (Z.ltb_spec a b)
             | |- context [?a >=? ?b] => destruct (Z.geb_spec a b)
             end; lia. }
  eexists. split.
  - eapply moveSnake_collision; [eassumption|].
    apply collides_iff. right. rewrite Hsame, Hs. now left.
  - repeat split.
Qed.

Lemma single_file_grid_ends_game_witness :
  snake narrow = mkCell 0 2 :: [mkCell 0 1]
  /\ inGrid (gridSize narrow) (mkCell 0 2)
  /\ ((width (gridSize narrow) = 1 /\ y (direction narrow) = 0)
      \/ (height (gridSize narrow) = 1 /\ x (direction narrow) = 0))
  /\ exists s', moveSnake stuck 0 narrow narrow 0%nat = Some (s', 0%nat)
                /\ gameOver s' = true /\ isPlaying s' = false
                /\ snake s' = snake narrow /\ score s' = score narrow.
Proof.
  assert (Hin : inGrid (gridSize narrow) (mkCell 0 2))
    by (unfold inGrid; simpl; lia).
  assert (Hd : (width (gridSize narrow) = 1 /\ y (direction narrow) = 0)
               \/ (height (gridSize narrow) = 1 /\ x (direction narrow) = 0))
    by (left; split; reflexivity).
  split; [reflexivity|]. split; [exact Hin|]. split; [exact Hd|].
  exact (single_file_grid_ends_game stuck 0 narrow 0 (mkCell 0 2) [mkCell 0 1]
           eq_refl Hin Hd).
Defined.

(** ** Keys *)

(** X3: a key event repeated (a key held down) changes nothing more: the
    second press of the same key leaves the state of after the first. *)
Theorem key_repeat_is_idle (key : string) (s : State) :
  handleKeyPress key (handleKeyPress key s) = handleKeyPress key s.
Proof.
  unfold handleKeyPress.
  destruct (key =? "ArrowUp")%string;
    [|destruct (key =? "ArrowDown")%string;
      [|destruct (key =? "ArrowLeft")%string;
        [|destruct (key =? "ArrowRight")%string]]];
    try reflexivity.
  - destruct (y (direction s) =? 0) eqn:E; simpl; [reflexivity|].
    rewrite E. reflexivity.
  - destruct (y (direction s) =? 0) eqn:E; simpl; [reflexivity|].
    rewrite E. reflexivity.
  - destruct (x (direction s) =? 0) eqn:E; simpl; [reflexivity|].
    rewrite E. reflexivity.
  - destruct (x (direction s) =? 0) eqn:E; simpl; [reflexivity|].
    rewrite E. reflexivity.
Qed.

(** X4: two presses before one tick turn the snake back on itself.  With the
    snake moving right and its second cell where a move to the left would
    put the head, Up or Down followed by Left are both accepted, and the
    next tick ends the game with the snake as it was. *)
Theorem quick_reverse_ends_game
        (random : nat -> Q) (fuel : nat) (s : State) (k : nat)
        (key : string) (first neck : Cell) (rest : list Cell) :
  isPlaying s = true ->
  direction s = mkCell 1 0 ->
  snake s = first :: neck :: rest ->
  neck = newHead (gridSize s) (mkCell (-1) 0) first ->
  key = "ArrowUp"%string \/ key = "ArrowDown"%string ->
  exists s', run random fuel [KeyDown key; KeyDown "ArrowLeft"; Tick] s k
             = Some (s', k)
             /\ direction s' = mkCell (-1) 0
             /\ gameOver s' = true /\ isPlaying s' = false
             /\ snake s' = snake s /\ score s' = score s.
Proof.
  intros Hp Hd Hs Hneck Hkey.
  set (s2 := handleKeyPress "ArrowLeft" (handleKeyPress key s)).
  assert (H2 : direction s2 = mkCell (-1) 0 /\ snake s2 = snake s
               /\ obstacles s2 = obstacles s /\ gridSize s2 = gridSize s
               /\ isPlaying s2 = true /\ score s2 = score s).
  { unfold s2. destruct Hkey as [-> | ->]; unfold handleKeyPress; simpl;
      rewrite Hd; simpl; auto 10. }
  destruct H2 as (Hd2 & Hs2 & Ho2 & Hg2 & Hp2 & Hsc2).
  assert (Hc : collides (newHead (gridSize s2) (direction s2) first)
                        (obstacles s2) (snake s2) = true).
  { apply collides_iff. right. rewrite Hg2, Hd2, <- Hneck, Hs2, Hs.
    right. now left. }
  assert (Hs2' : snake s2 = first :: neck :: rest) by congruence.
  exists (setSnake (snake s2) (setIsPlaying false (setGameOver true s2))).
  split.
  - assert (Hp1 : isPlaying (handleKeyPress key s) = true).
    { destruct (handleKeyPress_frame key s) as (_ & _ & _ & _ & _ & ->).
      assumption. }
    simpl. unfold bind, ret. rewrite Hp, Hp1. fold s2. rewrite Hp2.
    rewrite (moveSnake_collision random fuel s2 k first (neck :: rest) Hs2' Hc).
    reflexivity.
  - simpl. repeat split; assumption.
Qed.

Lemma quick_reverse_ends_game_witness :
  isPlaying straight = true
  /\ direction straight = mkCell 1 0
  /\ snake straight = mkCell 10 10 :: mkCell 9 10 :: [mkCell 8 10]
  /\ mkCell 9 10 = newHead (gridSize straight) (mkCell (-1) 0) (mkCell 10 10)
  /\ ("ArrowUp"%string = "ArrowUp"%string \/ "ArrowUp"%string = "ArrowDown"%string)
  /\ exists s', run stuck 0 [KeyDown "ArrowUp"; KeyDown "ArrowLeft"; Tick]
                    straight 0%nat = Some (s', 0%nat)
                /\ direction s' = mkCell (-1) 0
                /\ gameOver s' = true /\ isPlaying s' = false
                /\ snake s' = snake straight /\ score s' = score straight.
Proof.
  split; [reflexivity|]. split; [reflexivity|]. split; [reflexivity|].
  split; [reflexivity|]. split; [left; reflexivity|].
  exact (quick_reverse_ends_game stuck 0 straight 0 "ArrowUp" (mkCell 10 10)
           (mkCell 9 10) [mkCell 8 10] eq_refl eq_refl eq_refl eq_refl
           (or_introl eq_refl)).
Defined.

(** ** The grid and the game area *)

(** X5: the grid that [calculateGridSize] sets holds only cells that are
    drawn wholly inside the game area, and no further column or row would
    fit; nothing but the grid size changes. *)
Theorem grid_cells_fit (clientWidth clientHeight : Z) (s : State) (c : Cell) :
  inGrid (gridSize (calculateGridSize clientWidth clientHeight s)) c ->
  0 <= styleLeft c /\ styleLeft c + CELL_SIZE <= clientWidth
  /\ 0 <= styleTop c /\ styleTop c + CELL_SIZE <= clientHeight
  /\ clientWidth
     < (width (gridSize (calculateGridSize clientWidth clientHeight s)) + 1)
       * CELL_SIZE
  /\ clientHeight
     < (height (gridSize (calculateGridSize clientWidth clientHeight s)) + 1)
       * CELL_SIZE
  /\ calculateGridSize clientWidth clientHeight s
     = setGridSize (gridSize (calculateGridSize clientWidth clientHeight s)) s.
Proof.
  unfold inGrid, styleLeft, styleTop, calculateGridSize, CELL_SIZE. simpl.
  intros [[Hx0 Hx1] [Hy0 Hy1]].
  pose proof (Z.div_mod clientWidth 20 ltac:(lia)) as Hw.
  pose proof (Z.mod_pos_bound clientWidth 20 ltac:(lia)) as Hwb.
  pose proof (Z.div_mod clientHeight 20 ltac:(lia)) as Hh.
  pose proof (Z.mod_pos_bound clientHeight 20 ltac:(lia)) as Hhb.
  repeat split; try lia.
Qed.

Lemma grid_cells_fit_witness :
  inGrid (gridSize (calculateGridSize 415 399 initialState)) (mkCell 19 18)
  /\ gridSize (calculateGridSize 415 399 initialState) = mkGrid 20 19
  /\ styleLeft (mkCell 19 18) + CELL_SIZE <= 415
  /\ styleTop (mkCell 19 18) + CELL_SIZE <= 399.
Proof.
  assert (H : inGrid (gridSize (calculateGridSize 415 399 initialState))
                     (mkCell 19 18)) by (cbv; repeat split; congruence).
  split; [exact H|]. split; [reflexivity|].
  pose proof (grid_cells_fit 415 399 initialState (mkCell 19 18) H)
    as (_ & Hl & _ & Ht & _).
  split; [exact Hl | exact Ht].
Defined.

(** ** More on lists of cells *)

Lemma In_removelast (l : list Cell) (c : Cell) :
  In c (removelast l) -> In c l.
Proof.
  induction l as [|a l IH]; [trivial|].
  destruct l as [|b l]; [contradiction|].
  change (removelast (a :: b :: l)) with (a :: removelast (b :: l)).
  intros [<- | H]; [now left | right; now apply IH].
Qed.

Lemma NoDup_removelast (l : list Cell) : NoDup l -> NoDup (removelast l).
Proof.
  induction l as [|a l IH]; [trivial|].
  destruct l as [|b l]; [constructor|].
  change (removelast (a :: b :: l)) with (a :: removelast (b :: l)).
  intros H. inversion H as [|? ? Ha Hl]; subst. constructor.
  - intros Hin. apply Ha. now apply In_removelast.
  - now apply IH.
Qed.

Lemma existsb_sameCell_In (l : list Cell) (c : Cell) :
  existsb (sameCell c) l = true <-> In c l.
Proof.
  rewrite existsb_exists. split.
  - intros (e & Hin & He). apply sameCell_eq in He. subst; assumption.
  - intros H. exists c. split; [assumption | now apply sameCell_eq].
Qed.

Lemma distinctCells_NoDup (l : list Cell) : distinctCells l = true -> NoDup l.
Proof.
  induction l as [|a l IH]; simpl; [constructor|].
  rewrite andb_true_iff, negb_true_iff. intros [Ha Hl]. constructor.
  - intros Hin. apply existsb_sameCell_In in Hin. congruence.
  - now apply IH.
Qed.

(** The test [placementOk] decides the placement invariant from below. *)
Lemma placementOk_sound (s : State) :
  placementOk s = true -> placementInvariant s.
Proof.
  unfold placementOk, placementInvariant, obstaclesOffSnake.
  rewrite !andb_true_iff, !negb_true_iff.
  intros [[[Hfs Hfo] Hos] Hd]. repeat split.
  - intros Hin. apply existsb_sameCell_In in Hin. congruence.
  - intros Hin. apply existsb_sameCell_In in Hin. congruence.
  - intros o Ho Hin.
    assert (E : existsb (fun o => existsb (sameCell o) (snake s)) (obstacles s)
                = true).
    { apply existsb_exists. exists o. split; [assumption|].
      now apply existsb_sameCell_In. }
    congruence.
  - now apply distinctCells_NoDup.
Qed.

Lemma collides_false_inv (head : Cell) (obs prev : list Cell) :
  collides head obs prev = false -> ~ In head obs /\ ~ In head prev.
Proof.
  intros H. split; intros Hin;
    assert (collides head obs prev = true) by (apply collides_iff; tauto);
    congruence.
Qed.

(** ** What a tick keeps *)

(** X6: a tick never puts the snake on an obstacle: if no obstacle lies on
    the snake before a tick, none does after it, whichever way the tick
    goes (collision, plain move, food, food with a new obstacle batch). *)
Theorem tick_keeps_obstacles_off_snake
        (random : nat -> Q) (fuel : nat) (s : State) (k : nat)
        (s' : State) (k' : nat) :
  obstaclesOffSnake s ->
  moveSnake random fuel s s k = Some (s', k') ->
  obstaclesOffSnake s'.
Proof.
  intros Hinv H.
  apply moveSnake_cases in H
    as [(_ & -> & _) | (first & rest & head & Hs & Hh & Hcase)];
    [assumption|].
  destruct Hcase as [(_ & -> & _)
                    | [(Hc & _ & -> & _) | (Hc & Hf & c & l & -> & _ & _ & Hl)]].
  - exact Hinv.
  - apply collides_false_inv in Hc as [Ho _].
    intros o Hin Hsn. simpl in Hin.
    change (In o (removelast (head :: snake s))) in Hsn.
    apply In_removelast in Hsn as [<- | Hsn]; [contradiction|].
    exact (Hinv o Hin Hsn).
  - apply collides_false_inv in Hc as [Ho _].
    apply sameCell_eq in Hf.
    intros o Hin Hsn. simpl in Hin.
    change (In o (head :: snake s)) in Hsn.
    destruct (milestone s).
    + destruct Hl as (_ & _ & Hall). apply Hall in Hin as [Hos Hof].
      destruct Hsn as [<- | Hsn]; [congruence | contradiction].
    + subst l. destruct Hsn as [<- | Hsn]; [contradiction|].
      exact (Hinv o Hin Hsn).
Qed.

Lemma tick_keeps_obstacles_off_snake_witness :
  obstaclesOffSnake atScore5
  /\ moveSnake randomMilestone 5 atScore5 atScore5 32%nat
     = Some (atScore6, 54%nat)
  /\ obstaclesOffSnake atScore6.
Proof.
  assert (H : obstaclesOffSnake atScore5).
  { apply placementOk_sound. reflexivity. }
  split; [exact H|]. split; [reflexivity|].
  exact (tick_keeps_obstacles_off_snake randomMilestone 5 atScore5 32
           atScore6 54 H eq_refl).
Defined.

(** X7: a tick that does not reach the food keeps the whole placement
    invariant (food off the snake and the obstacles, obstacles off the snake
    and pairwise distinct) and leaves food and obstacles where they are. *)
Theorem tick_off_food_keeps_placement
        (random : nat -> Q) (fuel : nat) (s : State) (k : nat)
        (first : Cell) (rest : list Cell) (s' : State) (k' : nat) :
  snake s = first :: rest ->
  newHead (gridSize s) (direction s) first <> food s ->
  placementInvariant s ->
  moveSnake random fuel s s k = Some (s', k') ->
  placementInvariant s' /\ food s' = food s /\ obstacles s' = obstacles s.
Proof.
  intros Hs Hnf (Hfs & Hfo & Hos & Hnd) H.
  apply moveSnake_cases in H
    as [(He & _) | (first' & rest' & head & Hs' & Hh & Hcase)];
    [congruence|].
  assert (first' = first) by congruence. subst first' head.
  destruct Hcase as [(_ & -> & _)
                    | [(Hc & _ & -> & _) | (_ & Hf & _)]].
  - repeat split; assumption.
  - apply collides_false_inv in Hc as [Ho _].
    split; [|split; reflexivity]. repeat split; simpl.
    + change (~ In (food s) (removelast
                (newHead (gridSize s) (direction s) first :: snake s))).
      intros Hin. apply In_removelast in Hin as [E | Hin];
        [congruence | contradiction].
    + assumption.
    + intros o Hin Hsn. simpl in Hin.
      change (In o (removelast
                (newHead (gridSize s) (direction s) first :: snake s))) in Hsn.
      apply In_removelast in Hsn as [<- | Hsn]; [contradiction|].
      exact (Hos o Hin Hsn).
    + assumption.
  - apply sameCell_eq in Hf. contradiction.
Qed.

Lemma tick_off_food_keeps_placement_witness :
  snake cruising = mkCell 10 10 :: [mkCell 9 10]
  /\ newHead (gridSize cruising) (direction cruising) (mkCell 10 10)
     <> food cruising
  /\ placementInvariant cruising
  /\ exists s', moveSnake stuck 0 cruising cruising 0%nat = Some (s', 0%nat)
                /\ placementInvariant s' /\ food s' = food cruising
                /\ obstacles s' = obstacles cruising.
Proof.
  assert (Hnf : newHead (gridSize cruising) (direction cruising) (mkCell 10 10)
                <> food cruising) by discriminate.
  assert (Hinv : placementInvariant cruising)
    by (apply placementOk_sound; reflexivity).
  split; [reflexivity|]. split; [exact Hnf|]. split; [exact Hinv|].
  exists (setSnake [mkCell 11 10; mkCell 10 10] cruising).
  split; [reflexivity|].
  exact (tick_off_food_keeps_placement stuck 0 cruising 0 (mkCell 10 10)
           [mkCell 9 10] _ 0 eq_refl Hnf Hinv eq_refl).
Defined.

(** X8: a tick onto the food adds 1 to the score, sets a food that is off
    the snake and the obstacles of before the tick, and leaves direction,
    difficulty, grid size and both status flags alone.  The obstacles stay,
    unless the score of before the tick is a positive multiple of 5: then
    they are replaced by exactly [obstacleCount] pairwise distinct cells,
    none of them on the snake of after the tick. *)
Theorem tick_onto_food
        (random : nat -> Q) (fuel : nat) (s : State) (k : nat)
        (first : Cell) (rest : list Cell) (s' : State) (k' : nat) :
  snake s = first :: rest ->
  ~ In (food s) (obstacles s) ->
  ~ In (food s) (snake s) ->
  newHead (gridSize s) (direction s) first = food s ->
  moveSnake random fuel s s k = Some (s', k') ->
  score s' = score s + 1
  /\ ~ In (food s') (snake s) /\ ~ In (food s') (obstacles s)
  /\ (if milestone s
      then List.length (obstacles s') = obstacleCount (difficulty s)
           /\ NoDup (obstacles s')
           /\ forall o, In o (obstacles s') -> ~ In o (snake s')
      else obstacles s' = obstacles s)
  /\ direction s' = direction s /\ difficulty s' = difficulty s
  /\ gridSize s' = gridSize s
  /\ gameOver s' = gameOver s /\ isPlaying s' = isPlaying s.
Proof.
  intros Hs Hfo Hfs Hf H.
  apply moveSnake_cases in H
    as [(He & _) | (first' & rest' & head & Hs' & Hh & Hcase)];
    [congruence|].
  assert (first' = first) by congruence. subst first' head.
  destruct Hcase as [(Hc & _) | [(_ & Hnf & _) | (_ & _ & c & l & -> & Hcs & Hco & Hl)]].
  - apply collides_iff in Hc. rewrite Hf in Hc. tauto.
  - assert (sameCell (food s) (food s) = true) by now apply sameCell_eq.
    rewrite Hf in Hnf. congruence.
  - simpl. split; [reflexivity|]. split; [assumption|]. split; [assumption|].
    split; [|repeat split].
    destruct (milestone s); [|assumption].
    destruct Hl as (Hlen & Hnd & Hall).
    split; [assumption|]. split; [assumption|].
    intros o Hin [E | Hsn].
    + apply Hall in Hin as [_ Hof]. congruence.
    + apply Hall in Hin as [Hos _]. contradiction.
Qed.

Lemma tick_onto_food_witness :
  snake atScore5
  = mkCell 15 10 :: [mkCell 14 10; mkCell 13 10; mkCell 12 10; mkCell 11 10;
                     mkCell 10 10]
  /\ ~ In (food atScore5) (obstacles atScore5)
  /\ ~ In (food atScore5) (snake atScore5)
  /\ newHead (gridSize atScore5) (direction atScore5) (mkCell 15 10)
     = food atScore5
  /\ moveSnake randomMilestone 5 atScore5 atScore5 32%nat
     = Some (atScore6, 54%nat)
  /\ score atScore6 = score atScore5 + 1
  /\ milestone atScore5 = true
  /\ List.length (obstacles atScore6) = obstacleCount (difficulty atScore5).
Proof.
  destruct (placementOk_sound atScore5 eq_refl) as (Hfs & Hfo & _).
  pose proof (tick_onto_food randomMilestone 5 atScore5 32 (mkCell 15 10) _
                atScore6 54 eq_refl Hfo Hfs eq_refl eq_refl)
    as (Hsc & _ & _ & Hl & _).
  split; [reflexivity|]. split; [exact Hfo|]. split; [exact Hfs|].
  split; [reflexivity|]. split; [reflexivity|]. split; [exact Hsc|].
  split; [reflexivity|]. exact (proj1 Hl).
Defined.

(** ** More invariants of the reachable states *)

Lemma reachable_run (random : nat -> Q) (fuel : nat) (events : list Event) :
  forall (s : State) (k : nat) (s' : State) (k' : nat),
    reachable random s k ->
    run random fuel events s k = Some (s', k') ->
    reachable random s' k'.
Proof.
  induction events as [|e events IH]; intros s k s' k' Hr; simpl.
  - unfold ret. intros H. injection H as <- <-. assumption.
  - unfold bind. destruct (step random fuel e s k) as [[s1 k1]|] eqn:E;
      [|discriminate].
    apply IH. eapply reachable_step; eassumption.
Qed.

Lemma atScore6_reachable : reachable randomMilestone atScore6 54.
Proof.
  apply (reachable_run randomMilestone 5
           [Resize 400 400; ClickStart; Tick; Tick; Tick; Tick; Tick; Tick]
           initialState 0); [apply reachable_init | reflexivity].
Qed.

Section MoreInvariants.

Variable random : nat -> Q.

(** X9: the score is the number of cells the snake has grown: in every
    reachable state the snake has [score + 1] cells (so it is never empty and
    the score is never negative). *)
Theorem score_counts_growth (s : State) (k : nat) :
  reachable random s k ->
  Z.of_nat (List.length (snake s)) = score s + 1.
Proof.
  induction 1 as [|fuel e s k s' k' _ IH Hstep]; [reflexivity|].
  destruct e; simpl in Hstep.
  - destruct (isPlaying s).
    + apply moveSnake_cases in Hstep
        as [(_ & -> & _) | (first & rest & head & Hs & _ & Hcase)];
        [assumption|].
      destruct Hcase as [(_ & -> & _)
                        | [(_ & _ & -> & _) | (_ & _ & c & l & -> & _)]].
      * exact IH.
      * change (Z.of_nat (List.length (removelast (head :: snake s)))
                = score s + 1).
        now rewrite removelast_cons_length.
      * change (Z.of_nat (S (List.length (snake s))) = score s + 1 + 1). lia.
    + unfold ret in Hstep. injection Hstep as <- <-. assumption.
  - destruct (isPlaying s); unfold ret in Hstep; injection Hstep as <- <-;
      [|assumption].
    destruct (handleKeyPress_frame key s) as (-> & _ & _ & -> & _). assumption.
  - destruct ((negb (isPlaying s) && negb (gameOver s)) || gameOver s).
    + apply startGame_inv in Hstep as (_ & _ & -> & -> & _). reflexivity.
    + unfold ret in Hstep. injection Hstep as <- <-. assumption.
  - destruct (isPlaying s); unfold ret in Hstep; injection Hstep as <- <-;
      assumption.
  - destruct (negb (isPlaying s) && negb (gameOver s) && (0 <? score s));
      unfold ret in Hstep; injection Hstep as <- <-; assumption.
  - unfold ret in Hstep. injection Hstep as <- <-. assumption.
  - unfold ret in Hstep. injection Hstep as <- <-. assumption.
Qed.

(** X10: the snake never overlaps itself: in every reachable state its cells
    are pairwise distinct. *)
Theorem snake_never_overlaps (s : State) (k : nat) :
  reachable random s k -> NoDup (snake s).
Proof.
  induction 1 as [|fuel e s k s' k' _ IH Hstep].
  { repeat constructor. intros []. }
  destruct e; simpl in Hstep.
  - destruct (isPlaying s).
    + apply moveSnake_cases in Hstep
        as [(_ & -> & _) | (first & rest & head & Hs & _ & Hcase)];
        [assumption|].
      destruct Hcase as [(_ & -> & _)
                        | [(Hc & _ & -> & _) | (Hc & _ & c & l & -> & _)]].
      * exact IH.
      * apply collides_false_inv in Hc as [_ Hn].
        change (NoDup (removelast (head :: snake s))).
        apply NoDup_removelast. now constructor.
      * apply collides_false_inv in Hc as [_ Hn].
        change (NoDup (head :: snake s)). now constructor.
    + unfold ret in Hstep. injection Hstep as <- <-. assumption.
  - destruct (isPlaying s); unfold ret in Hstep; injection Hstep as <- <-;
      [|assumption].
    destruct (handleKeyPress_frame key s) as (-> & _). assumption.
  - destruct ((negb (isPlaying s) && negb (gameOver s)) || gameOver s).
    + apply startGame_inv in Hstep as (_ & _ & _ & -> & _).
      repeat constructor. intros [].
    + unfold ret in Hstep. injection Hstep as <- <-. assumption.
  - destruct (isPlaying s); unfold ret in Hstep; injection Hstep as <- <-;
      assumption.
  - destruct (negb (isPlaying s) && negb (gameOver s) && (0 <? score s));
      unfold ret in Hstep; injection Hstep as <- <-; assumption.
  - unfold ret in Hstep. injection Hstep as <- <-. assumption.
  - unfold ret in Hstep. injection Hstep as <- <-. assumption.
Qed.

(** X11: the two status flags are never set together: no reachable state is
    both over and playing, so the timer never runs on a finished game. *)
Theorem never_over_and_playing (s : State) (k : nat) :
  reachable random s k -> gameOver s && isPlaying s = false.
Proof.
  intros Hr. destruct (gameOver s) eqn:Hg; [|reflexivity].
  simpl. now apply (reachable_over_not_playing random s k).
Qed.

End MoreInvariants.

Lemma score_counts_growth_witness :
  reachable randomMilestone atScore6 54
  /\ Z.of_nat (List.length (snake atScore6)) = score atScore6 + 1.
Proof.
  split; [exact atScore6_reachable|].
  exact (score_counts_growth randomMilestone atScore6 54 atScore6_reachable).
Defined.

Lemma snake_never_overlaps_witness :
  reachable randomMilestone atScore6 54 /\ NoDup (snake atScore6).
Proof.
  split; [exact atScore6_reachable|].
  exact (snake_never_overlaps randomMilestone atScore6 54 atScore6_reachable).
Defined.

Lemma never_over_and_playing_witness :
  reachable randomCrash crashed 22
  /\ gameOver crashed = true
  /\ gameOver crashed && isPlaying crashed = false.
Proof.
  split; [exact crashed_reachable|]. split; [reflexivity|].
  exact (never_over_and_playing randomCrash crashed 22 crashed_reachable).
Defined.

(** ** Pause and resume *)

Section Pause.

Variable random : nat -> Q.

Lemma run_app (fuel : nat) (events events' : list Event) :
  forall (s : State) (k : nat),
    run random fuel (events ++ events') s k
    = match run random fuel events s k with
      | Some (s1, k1) => run random fuel events' s1 k1
      | None => None
      end.
Proof.
  induction events as [|e events IH]; intros s k; simpl; [reflexivity|].
  unfold bind. destruct (step random fuel e s k) as [[s1 k1]|]; [|reflexivity].
  apply IH.
Qed.

(** While the game is not playing, ticks and key events do nothing. *)
Lemma idle_run (fuel : nat) (events : list Event) (s : State) (k : nat) :
  isPlaying s = false ->
  Forall tickOrKey events ->
  run random fuel events s k = Some (s, k).
Proof.
  intros Hp Hall. induction Hall as [|e events He _ IH]; [reflexivity|].
  simpl. unfold bind.
  destruct He as [-> | [key ->]]; simpl; rewrite Hp; unfold ret; exact IH.
Qed.

Lemma resume_pause (s : State) : isPlaying s = true -> resumeGame (pauseGame s) = s.
Proof. destruct s. simpl. intros ->. reflexivity. Qed.

(** X12: pause, then any ticks and key presses, then resume, gives back
    exactly the state of before the pause, when the score is positive: a
    paused game ignores the timer and the keyboard. *)
Theorem pause_resume_round_trip
        (fuel : nat) (events : list Event) (s : State) (k : nat) :
  isPlaying s = true ->
  gameOver s = false ->
  0 < score s ->
  Forall tickOrKey events ->
  run random fuel (ClickPause :: events ++ [ClickResume]) s k = Some (s, k).
Proof.
  intros Hp Hg Hsc Hall.
  change (run random fuel (ClickPause :: events ++ [ClickResume]) s k)
    with (bind (step random fuel ClickPause s)
               (run random fuel (events ++ [ClickResume])) k).
  unfold bind. simpl step. rewrite Hp. unfold ret.
  rewrite run_app, (idle_run fuel events (pauseGame s) k eq_refl Hall).
  simpl. unfold bind. rewrite Hg.
  assert (H : (0 <? score s) = true) by now apply Z.ltb_lt.
  rewrite H. simpl. unfold ret. now rewrite resume_pause.
Qed.

(** X13: a game paused before the first food cannot be resumed: with the
    score at 0 the Resume click does nothing and the game stays paused; the
    only button that acts is Start, which begins a new game. *)
Theorem pause_at_score_zero (fuel : nat) (s : State) (k : nat) :
  isPlaying s = true ->
  score s <= 0 ->
  run random fuel [ClickPause; ClickResume] s k = Some (pauseGame s, k)
  /\ step random fuel ClickStart (pauseGame s) k
     = startGame random fuel (pauseGame s) (pauseGame s) k.
Proof.
  intros Hp Hsc. split.
  - simpl. unfold bind. rewrite Hp. unfold ret. simpl.
    assert (H : (0 <? score s) = false) by now apply Z.ltb_ge.
    rewrite H, andb_false_r. reflexivity.
  - simpl. destruct (gameOver s); reflexivity.
Qed.

End Pause.

Lemma pause_resume_round_trip_witness :
  isPlaying afterEat = true
  /\ gameOver afterEat = false
  /\ 0 < score afterEat
  /\ Forall tickOrKey [Tick; KeyDown "ArrowUp"; Tick]
  /\ run stuck 0 (ClickPause :: [Tick; KeyDown "ArrowUp"; Tick] ++ [ClickResume])
         afterEat 0%nat = Some (afterEat, 0%nat).
Proof.
  assert (Hsc : 0 < score afterEat) by (simpl; lia).
  assert (Hall : Forall tickOrKey [Tick; KeyDown "ArrowUp"; Tick]).
  { constructor; [now left|]. constructor; [right; now exists "ArrowUp"%string|].
    constructor; [now left|]. constructor. }
  split; [reflexivity|]. split; [reflexivity|]. split; [exact Hsc|].
  split; [exact Hall|].
  exact (pause_resume_round_trip stuck 0 _ afterEat 0 eq_refl eq_refl Hsc Hall).
Defined.

Lemma pause_at_score_zero_witness :
  isPlaying beforeEat = true
  /\ score beforeEat <= 0
  /\ run stuck 0 [ClickPause; ClickResume] beforeEat 0%nat
     = Some (pauseGame beforeEat, 0%nat)
  /\ isPlaying (pauseGame beforeEat) = false.
Proof.
  assert (Hsc : score beforeEat <= 0) by (simpl; lia).
  split; [reflexivity|]. split; [exact Hsc|].
  split; [|reflexivity].
  exact (proj1 (pause_at_score_zero stuck 0 beforeEat 0 eq_refl Hsc)).
Defined.

(** ** Obstacle batches and the start of a game *)

Section Batches.

Variable random : nat -> Q.

Lemma generateFood_inGrid (fuel : nat) (r p : State) (k : nat)
      (p' : State) (k' : nat) :
  unitInterval random ->
  1 <= width (gridSize r) -> 1 <= height (gridSize r) ->
  generateFood random fuel r p k = Some (p', k') ->
  inGrid (gridSize r) (food p').
Proof.
  intros Hr Hw Hh H. apply generateFood_inv in H as (c & Hl & ->).
  rewrite generateFood_loop_place in Hl.
  apply placeRandomCell_sound in Hl as (_ & j & -> & _).
  simpl. now apply randomCell_inGrid.
Qed.

Lemma generateObstacles_for_inGrid (fuel n : nat) (g : GridSize)
      (snake0 : list Cell) (food0 : Cell) :
  unitInterval random -> 1 <= width g -> 1 <= height g ->
  forall (acc : list Cell) (k : nat) (l : list Cell) (k' : nat),
    generateObstacles_for random fuel n g snake0 acc food0 k = Some (l, k') ->
    Forall (inGrid g) acc -> Forall (inGrid g) l.
Proof.
  intros Hr Hw Hh. induction n as [|n IH]; intros acc k l k'; simpl.
  - unfold ret. intros H. injection H as <- <-. trivial.
  - unfold bind.
    destruct (generateObstacles_loop random fuel g snake0 acc food0 k)
      as [[o k1]|] eqn:El; [|discriminate].
    intros H Hacc. apply IH in H; [assumption|].
    rewrite generateObstacles_loop_place in El.
    apply placeRandomCell_sound in El as (_ & j & -> & _).
    apply Forall_app. split; [assumption|].
    constructor; [now apply randomCell_inGrid | constructor].
Qed.

Lemma generateObstacles_batch
        (fuel : nat) (r p : State) (k : nat) (p' : State) (k' : nat) :
  unitInterval random ->
  1 <= width (gridSize r) -> 1 <= height (gridSize r) ->
  generateObstacles random fuel r p k = Some (p', k') ->
  List.length (obstacles p') = obstacleCount (difficulty r)
  /\ NoDup (obstacles p')
  /\ Forall (inGrid (gridSize r)) (obstacles p')
  /\ (forall o, In o (obstacles p') -> ~ In o (snake r) /\ o <> food r)
  /\ p' = setObstacles (obstacles p') p.
Proof.
  intros Hr Hw Hh H.
  pose proof (generateObstacles_sound random fuel r p k p' k' H)
    as (Hp' & Hlen & Hnd & Hall).
  apply generateObstacles_inv in H as (l & Hl & ->).
  apply generateObstacles_for_inGrid in Hl; try assumption; [|constructor].
  simpl in *. repeat split; try assumption; apply Hall; assumption.
Qed.

(** X14: a batch that [generateObstacles] sets has exactly [obstacleCount]
    cells for the difficulty of the snapshot, pairwise distinct, all on the
    grid, none on the snapshot's snake or food; it takes the place of the
    obstacles of before, and no other slot changes. *)
Theorem obstacle_batch
        (fuel : nat) (r p : State) (k : nat) (p' : State) (k' : nat) :
  unitInterval random ->
  1 <= width (gridSize r) -> 1 <= height (gridSize r) ->
  generateObstacles random fuel r p k = Some (p', k') ->
  List.length (obstacles p') = obstacleCount (difficulty r)
  /\ NoDup (obstacles p')
  /\ Forall (inGrid (gridSize r)) (obstacles p')
  /\ (forall o, In o (obstacles p') -> ~ In o (snake r) /\ o <> food r)
  /\ p' = setObstacles (obstacles p') p.
Proof.
  intros Hr Hw Hh H.
  pose proof (generateObstacles_sound random fuel r p k p' k' H)
    as (Hp' & Hlen & Hnd & Hall).
  apply generateObstacles_inv in H as (l & Hl & ->).
  apply generateObstacles_for_inGrid in Hl; try assumption; [|constructor].
  simpl in *. repeat split; try assumption; apply Hall; assumption.
Qed.

Lemma floor_scaled_draw (r : Q) (n : Z) :
  (0 <= r)%Q -> (r < 1)%Q -> 0 <= n ->
  0 <= Qfloor (r * inject_Z n) < Z.max 1 n.
Proof.
  intros H0 H1 Hn. destruct (Z.eq_dec n 0) as [-> | Hpos].
  - assert (E : (r * inject_Z 0 == inject_Z 0)%Q) by apply Qmult_0_r.
    rewrite E, Qfloor_Z. lia.
  - pose proof (floor_scaled_range r n H0 H1 ltac:(lia)). lia.
Qed.

Lemma randomCell_drawRange (g : GridSize) (k : nat) :
  unitInterval random -> 0 <= width g -> 0 <= height g ->
  inGrid (drawRange g) (randomCell random g k).
Proof.
  intros Hr Hw Hh. unfold inGrid, randomCell, drawRange; simpl.
  split; apply floor_scaled_draw; try assumption; apply Hr.
Qed.

Lemma generateObstacles_for_drawRange (fuel n : nat) (g : GridSize)
      (snake0 : list Cell) (food0 : Cell) :
  unitInterval random -> 0 <= width g -> 0 <= height g ->
  forall (acc : list Cell) (k : nat) (l : list Cell) (k' : nat),
    generateObstacles_for random fuel n g snake0 acc food0 k = Some (l, k') ->
    Forall (inGrid (drawRange g)) acc -> Forall (inGrid (drawRange g)) l.
Proof.
  intros Hr Hw Hh. induction n as [|n IH]; intros acc k l k'; simpl.
  - unfold ret. intros H. injection H as <- <-. trivial.
  - unfold bind.
    destruct (generateObstacles_loop random fuel g snake0 acc food0 k)
      as [[o k1]|] eqn:El; [|discriminate].
    intros H Hacc. apply IH in H; [assumption|].
    rewrite generateObstacles_loop_place in El.
    apply placeRandomCell_sound in El as (_ & j & -> & _).
    apply Forall_app. split; [assumption|].
    constructor; [now apply randomCell_drawRange | constructor].
Qed.

(** X15: when fewer cells can be drawn than the difficulty asks obstacles
    for, [generateObstacles] never returns, and so neither does [startGame],
    whatever the random numbers in [0, 1) and however many iterations are
    allowed: the page hangs.  The cells that can be drawn are those of the
    grid, a dimension of 0 counting as 1 because it always draws the
    coordinate 0; so the grid of the first render, 0 by 0, is one of them. *)
Theorem crowded_grid_never_starts
        (fuel : nat) (s p : State) (k : nat) :
  unitInterval random ->
  0 <= width (gridSize s) -> 0 <= height (gridSize s) ->
  Z.max 1 (width (gridSize s)) * Z.max 1 (height (gridSize s))
  < Z.of_nat (obstacleCount (difficulty s)) ->
  generateObstacles random fuel s p k = None
  /\ startGame random fuel s s k = None.
Proof.
  intros Hr Hw Hh Hsmall.
  assert (Hnone : forall p0 k0, generateObstacles random fuel s p0 k0 = None).
  { intros p0 k0.
    destruct (generateObstacles random fuel s p0 k0) as [[p' k']|] eqn:E;
      [|reflexivity].
    exfalso.
    destruct (generateObstacles_sound random fuel s p0 k0 p' k' E)
      as (_ & Hlen & Hnd & _).
    apply generateObstacles_inv in E as (l & Hl & ->).
    apply generateObstacles_for_drawRange in Hl; try assumption;
      [|constructor].
    simpl in Hlen, Hnd.
    assert (Hincl : incl l (allCells (drawRange (gridSize s)))).
    { intros c Hc. apply allCells_In.
      now apply (proj1 (Forall_forall _ _) Hl). }
    apply NoDup_incl_length in Hincl; [|assumption].
    pose proof (allCells_length (drawRange (gridSize s))) as Hall.
    simpl in Hall. lia. }
  split; [apply Hnone|].
  unfold startGame, bind.
  destruct (generateFood random fuel s _ k) as [[p3 k3]|]; [|reflexivity].
  now rewrite Hnone.
Qed.

(** What a start that returns has set, and where it has put things. *)
Lemma startGame_facts (fuel : nat) (s : State) (k : nat) (s' : State) (k' : nat) :
  startGame random fuel s s k = Some (s', k') ->
  exists c l p3 k3,
    generateFood random fuel s
      (setDirection INITIAL_DIRECTION (setSnake INITIAL_SNAKE s)) k
    = Some (p3, k3)
    /\ food p3 = c
    /\ generateObstacles random fuel s p3 k3 = Some (setObstacles l p3, k')
    /\ s' = mkState INITIAL_SNAKE INITIAL_DIRECTION c l false 0
                    (difficulty s) (gridSize s) true.
Proof.
  unfold startGame, bind.
  destruct (generateFood random fuel s _ k) as [[p3 k3]|] eqn:Hfood;
    [|discriminate].
  destruct (generateObstacles random fuel s p3 k3) as [[p4 k4]|] eqn:Hobs;
    [|discriminate].
  unfold ret. intros H. injection H as <- <-.
  pose proof (generateFood_sound random _ _ _ _ _ _ Hfood) as (Hp3 & _).
  pose proof (generateObstacles_sound random _ _ _ _ _ _ Hobs) as (Hp4 & _).
  exists (food p3), (obstacles p4), p3, k3.
  split; [reflexivity|]. split; [reflexivity|].
  split; [now rewrite <- Hp4|].
  rewrite Hp4, Hp3. reflexivity.
Qed.

(** X16: a start that returns resets the game whatever went before: the
    snake is the single cell (10,10) moving right, the score 0, the game
    playing and not over, difficulty and grid as they were; the new food is
    off the snake and the obstacles of before the start, and the new
    obstacles are [obstacleCount] pairwise distinct cells off the snake and
    the food of before the start. *)
Theorem start_resets
        (fuel : nat) (s : State) (k : nat) (s' : State) (k' : nat) :
  startGame random fuel s s k = Some (s', k') ->
  snake s' = INITIAL_SNAKE /\ direction s' = INITIAL_DIRECTION
  /\ score s' = 0 /\ gameOver s' = false /\ isPlaying s' = true
  /\ difficulty s' = difficulty s /\ gridSize s' = gridSize s
  /\ ~ In (food s') (snake s) /\ ~ In (food s') (obstacles s)
  /\ List.length (obstacles s') = obstacleCount (difficulty s)
  /\ NoDup (obstacles s')
  /\ forall o, In o (obstacles s') -> ~ In o (snake s) /\ o <> food s.
Proof.
  intros H.
  apply startGame_facts in H as (c & l & p3 & k3 & Hfood & Hc & Hobs & ->).
  apply generateFood_sound in Hfood as (_ & Hfs & Hfo).
  apply generateObstacles_sound in Hobs as (_ & Hlen & Hnd & Hall).
  subst c. simpl in *. repeat split; try assumption; apply Hall; assumption.
Qed.

(** X17: with random numbers in [0, 1) that keep drawing every grid cell,
    a free cell for the food and room for a whole batch of obstacles beside
    the snake and food of before, a start returns. *)
Theorem start_returns (s : State) (k : nat) :
  unitInterval random ->
  1 <= width (gridSize s) -> 1 <= height (gridSize s) ->
  fair random (gridSize s) k ->
  cellCount (snake s ++ obstacles s)
  < width (gridSize s) * height (gridSize s) ->
  cellCount (snake s ++ [food s]) + Z.of_nat (obstacleCount (difficulty s))
  <= width (gridSize s) * height (gridSize s) ->
  exists fuel s' k', startGame random fuel s s k = Some (s', k').
Proof.
  intros Hr Hw Hh Hfair Hroom Hbatch.
  destruct (placeRandomCell_terminates random (gridSize s)
              (forbiddenForFood (snake s) (obstacles s))
              (nodup Cell_eq_dec (snake s ++ obstacles s)) k)
    as (fuel1 & c & j1 & Hp & _ & _); try assumption.
  { now apply fair_fairFrom. }
  { intros c. apply forbidden_true_In.
    rewrite forbiddenForFood_false, in_app_iff. tauto. }
  destruct (generateObstacles_for_terminates random (gridSize s)
              (snake s) (food s) Hr Hw Hh
              (obstacleCount (difficulty s)) [] (2 * S j1 + k)%nat)
    as (fuel2 & l & j2 & Hfor).
  { now apply fair_later. }
  { simpl List.length. lia. }
  exists (Nat.max fuel1 fuel2).
  unfold startGame, bind, generateFood, generateObstacles, bind, ret.
  rewrite generateFood_loop_place.
  rewrite (placeRandomCell_mono random fuel1 (Nat.max fuel1 fuel2)
             _ _ _ _ Hp) by lia.
  cbv beta iota.
  rewrite (generateObstacles_for_mono random fuel2 (Nat.max fuel1 fuel2)
             _ _ _ _ ltac:(lia) _ _ _ Hfor).
  eauto.
Qed.

End Batches.

(** ** Streams that fulfil the assumptions on the random numbers *)

Lemma randomOf_unitInterval (den : positive) (nums : list Z) :
  Forall (fun n => 0 <= n < Z.pos den) nums ->
  unitInterval (randomOf den nums).
Proof.
  intros Hall i. unfold randomOf.
  assert (H : 0 <= nth i nums 0 < Z.pos den).
  { destruct (nth_in_or_default i nums 0) as [Hin | ->]; [|lia].
    exact (proj1 (Forall_forall _ _) Hall _ Hin). }
  unfold Qle, Qlt. simpl. lia.
Qed.

Lemma stuck_unitInterval : unitInterval stuck.
Proof. intros i. unfold stuck, Qle, Qlt. simpl. lia. Qed.

Lemma Qfloor_scaled (a w : Z) :
  1 <= w -> Qfloor ((a # Z.to_pos w) * inject_Z w) = a.
Proof.
  intros Hw.
  assert (H : ((a # Z.to_pos w) * inject_Z w == inject_Z a)%Q).
  { unfold Qeq, Qmult, inject_Z. simpl.
    rewrite Pos.mul_1_r, Z2Pos.id by lia. ring. }
  rewrite H. apply Qfloor_Z.
Qed.

Lemma sweep_unitInterval (g : GridSize) : unitInterval (sweep g).
Proof.
  intros i. unfold sweep.
  set (c := nth _ (allCells g) (mkCell 0 0)).
  assert (H : (0 <= x c < Z.pos (Z.to_pos (width g)))
              /\ (0 <= y c < Z.pos (Z.to_pos (height g)))).
  { destruct (nth_in_or_default (Nat.div2 i mod List.length (allCells g))
                                (allCells g) (mkCell 0 0)) as [Hin | Hd].
    - apply allCells_In in Hin. fold c in Hin.
      destruct Hin as [Hx Hy]. rewrite !Z2Pos.id by lia. tauto.
    - fold c in Hd. rewrite Hd. simpl. lia. }
  destruct (Nat.even i); unfold Qle, Qlt; simpl; lia.
Qed.

Lemma sweep_draw (g : GridSize) (i : nat) :
  1 <= width g -> 1 <= height g ->
  randomCell (sweep g) g (2 * i)
  = nth (i mod List.length (allCells g)) (allCells g) (mkCell 0 0).
Proof.
  intros Hw Hh. unfold randomCell, sweep.
  rewrite Nat.div2_succ_double, Nat.div2_double.
  assert (He : Nat.even (2 * i) = true)
    by (rewrite Nat.even_mul; reflexivity).
  assert (Ho : Nat.even (S (2 * i)) = false).
  { rewrite Nat.even_succ, Nat.odd_mul. reflexivity. }
  rewrite He, Ho, !Qfloor_scaled by assumption.
  now destruct (nth _ (allCells g) (mkCell 0 0)).
Qed.

Lemma sweep_fair (g : GridSize) :
  1 <= width g -> 1 <= height g -> fair (sweep g) g 0.
Proof.
  intros Hw Hh j c Hc. apply allCells_In in Hc.
  destruct (In_nth _ _ (mkCell 0 0) Hc) as (t & Ht & Hnth).
  set (n := List.length (allCells g)) in *.
  exists (t + j * (n - 1))%nat.
  replace (2 * (t + j * (n - 1)) + (2 * j + 0))%nat
    with (2 * (t + j * n))%nat by nia.
  rewrite sweep_draw by assumption. fold n.
  rewrite Nat.Div0.mod_add, Nat.mod_small by assumption.
  exact Hnth.
Qed.

Lemma obstacle_batch_witness :
  unitInterval randomStart
  /\ 1 <= width (gridSize mounted) /\ 1 <= height (gridSize mounted)
  /\ generateObstacles randomStart 5 mounted mounted 2%nat
     = Some (setObstacles (obstacles afterStart) mounted, 22%nat)
  /\ List.length (obstacles afterStart) = obstacleCount (difficulty mounted)
  /\ NoDup (obstacles afterStart)
  /\ Forall (inGrid (gridSize mounted)) (obstacles afterStart).
Proof.
  assert (Hr : unitInterval randomStart).
  { apply randomOf_unitInterval. repeat (constructor; [lia|]). constructor. }
  assert (Hw : 1 <= width (gridSize mounted)) by (cbv; congruence).
  assert (Hh : 1 <= height (gridSize mounted)) by (cbv; congruence).
  split; [exact Hr|]. split; [exact Hw|]. split; [exact Hh|].
  split; [reflexivity|].
  pose proof (obstacle_batch randomStart 5 mounted mounted 2
                (setObstacles (obstacles afterStart) mounted) 22
                Hr Hw Hh eq_refl) as (Hlen & Hnd & Hin & _).
  split; [exact Hlen|]. split; [exact Hnd | exact Hin].
Defined.

Lemma crowded_grid_never_starts_witness :
  unitInterval stuck
  /\ (0 <= width (gridSize tiny) /\ 0 <= height (gridSize tiny)
      /\ Z.max 1 (width (gridSize tiny)) * Z.max 1 (height (gridSize tiny))
         < Z.of_nat (obstacleCount (difficulty tiny))
      /\ generateObstacles stuck 7 tiny tiny 0%nat = None
      /\ startGame stuck 7 tiny tiny 0%nat = None)
  /\ (0 <= width (gridSize initialState) /\ 0 <= height (gridSize initialState)
      /\ Z.max 1 (width (gridSize initialState))
         * Z.max 1 (height (gridSize initialState))
         < Z.of_nat (obstacleCount (difficulty initialState))
      /\ generateObstacles stuck 7 initialState initialState 0%nat = None
      /\ startGame stuck 7 initialState initialState 0%nat = None).
Proof.
  assert (Hw : 0 <= width (gridSize tiny)) by (simpl; lia).
  assert (Hh : 0 <= height (gridSize tiny)) by (simpl; lia).
  assert (Hs : Z.max 1 (width (gridSize tiny)) * Z.max 1 (height (gridSize tiny))
               < Z.of_nat (obstacleCount (difficulty tiny))) by (simpl; lia).
  assert (Hw0 : 0 <= width (gridSize initialState)) by (simpl; lia).
  assert (Hh0 : 0 <= height (gridSize initialState)) by (simpl; lia).
  assert (Hs0 : Z.max 1 (width (gridSize initialState))
                * Z.max 1 (height (gridSize initialState))
                < Z.of_nat (obstacleCount (difficulty initialState)))
    by (simpl; lia).
  split; [exact stuck_unitInterval|]. split.
  - split; [exact Hw|]. split; [exact Hh|]. split; [exact Hs|].
    exact (crowded_grid_never_starts stuck 7 tiny tiny 0 stuck_unitInterval
             Hw Hh Hs).
  - split; [exact Hw0|]. split; [exact Hh0|]. split; [exact Hs0|].
    exact (crowded_grid_never_starts stuck 7 initialState initialState 0
             stuck_unitInterval Hw0 Hh0 Hs0).
Defined.

Lemma start_resets_witness :
  startGame randomStart 5 mounted mounted 0%nat = Some (afterStart, 22%nat)
  /\ snake afterStart = INITIAL_SNAKE /\ score afterStart = 0
  /\ isPlaying afterStart = true
  /\ List.length (obstacles afterStart) = obstacleCount (difficulty mounted).
Proof.
  pose proof (start_resets randomStart 5 mounted 0 afterStart 22 eq_refl)
    as (Hsn & _ & Hsc & _ & Hp & _ & _ & _ & _ & Hlen & _).
  split; [reflexivity|]. split; [exact Hsn|]. split; [exact Hsc|].
  split; [exact Hp | exact Hlen].
Defined.

Lemma start_returns_witness :
  unitInterval (sweep grid20)
  /\ 1 <= width (gridSize mounted) /\ 1 <= height (gridSize mounted)
  /\ fair (sweep grid20) (gridSize mounted) 0
  /\ cellCount (snake mounted ++ obstacles mounted)
     < width (gridSize mounted) * height (gridSize mounted)
  /\ cellCount (snake mounted ++ [food mounted])
     + Z.of_nat (obstacleCount (difficulty mounted))
     <= width (gridSize mounted) * height (gridSize mounted)
  /\ exists fuel s' k',
      startGame (sweep grid20) fuel mounted mounted 0%nat = Some (s', k').
Proof.
  assert (Hw : 1 <= width (gridSize mounted)) by (cbv; congruence).
  assert (Hh : 1 <= height (gridSize mounted)) by (cbv; congruence).
  assert (Hf : fair (sweep grid20) (gridSize mounted) 0)
    by exact (sweep_fair grid20 Hw Hh).
  assert (H1 : cellCount (snake mounted ++ obstacles mounted)
               < width (gridSize mounted) * height (gridSize mounted))
    by (vm_compute; reflexivity).
  assert (H2 : cellCount (snake mounted ++ [food mounted])
               + Z.of_nat (obstacleCount (difficulty mounted))
               <= width (gridSize mounted) * height (gridSize mounted))
    by (vm_compute; congruence).
  split; [exact (sweep_unitInterval grid20)|].
  split; [exact Hw|]. split; [exact Hh|]. split; [exact Hf|].
  split; [exact H1|]. split; [exact H2|].
  exact (start_returns (sweep grid20) mounted 0 (sweep_unitInterval grid20)
           Hw Hh Hf H1 H2).
Defined.

(** ** Staying on the grid *)

Section OnGrid.

Variable random : nat -> Q.

Lemma tick_on_grid (fuel : nat) (s : State) (k : nat) (s' : State) (k' : nat) :
  unitInterval random ->
  1 <= width (gridSize s) -> 1 <= height (gridSize s) ->
  onGrid s ->
  moveSnake random fuel s s k = Some (s', k') ->
  onGrid s' /\ gridSize s' = gridSize s.
Proof.
  intros Hr Hw Hh (Hsn & Hfd & Hob). unfold moveSnake.
  destruct (snake s) as [|first rest] eqn:Hs.
  { unfold ret. intros H. injection H as <- <-.
    split; [|reflexivity]. unfold onGrid. rewrite Hs. auto. }
  pose proof (newHead_lands_on_grid (gridSize s) (direction s) first Hw Hh) as Hhead.
  destruct (collides _ (obstacles s) (first :: rest)).
  { unfold ret. intros H. injection H as <- <-.
    split; [|reflexivity]. unfold onGrid. simpl. auto. }
  destruct (sameCell _ (food s)).
  2:{ unfold ret. intros H. injection H as <- <-.
      split; [|reflexivity].
      assert (Hrl : Forall (inGrid (gridSize s))
                      (removelast (newHead (gridSize s) (direction s) first
                                   :: first :: rest))).
      { apply Forall_forall. intros c Hc. apply In_removelast in Hc.
        revert c Hc. apply Forall_forall. now constructor. }
      unfold onGrid. split; [exact Hrl | split; assumption]. }
  unfold bind.
  destruct (generateFood random fuel s (setScore (score s + 1) s) k)
    as [[p2 k2]|] eqn:Hfood; [|discriminate].
  pose proof (generateFood_inGrid random _ _ _ _ _ _ Hr Hw Hh Hfood) as Hf2.
  apply generateFood_sound in Hfood as (Hp2 & _).
  destruct ((0 <? score s) && (Z.rem (score s) 5 =? 0)).
  - destruct (generateObstacles random fuel s p2 k2) as [[p3 k3]|] eqn:Hobs;
      [|discriminate].
    destruct (generateObstacles_batch random _ _ _ _ _ _ Hr Hw Hh Hobs)
      as (_ & _ & Hin3 & _ & Hp3).
    unfold ret. intros H. injection H as <- <-.
    rewrite Hp3, Hp2. unfold onGrid. simpl.
    split; [|reflexivity]. split; [now constructor|]. split; assumption.
  - unfold ret. intros H. injection H as <- <-.
    rewrite Hp2. unfold onGrid. simpl.
    split; [|reflexivity]. split; [now constructor|]. split; assumption.
Qed.

(** X18: nothing leaves the grid.  On a grid of more than 10 columns and
    rows, with random numbers in [0, 1), every event but a resize takes a
    state whose snake, food and obstacles are all on the grid to another such
    state, and keeps the grid size. *)
Theorem events_keep_on_grid
        (fuel : nat) (e : Event) (s : State) (k : nat) (s' : State) (k' : nat) :
  unitInterval random ->
  10 < width (gridSize s) -> 10 < height (gridSize s) ->
  onGrid s ->
  (forall clientWidth clientHeight, e <> Resize clientWidth clientHeight) ->
  step random fuel e s k = Some (s', k') ->
  onGrid s' /\ gridSize s' = gridSize s.
Proof.
  intros Hr Hw Hh Hon He.
  assert (Hsame : Some (s, k) = Some (s', k') ->
                  onGrid s' /\ gridSize s' = gridSize s).
  { intros H. injection H as <- <-. split; [assumption | reflexivity]. }
  destruct e; simpl.
  - destruct (isPlaying s); [|exact Hsame].
    apply tick_on_grid; try assumption; lia.
  - destruct (isPlaying s); [|exact Hsame].
    unfold ret. intros H. injection H as <- <-.
    unfold handleKeyPress.
    destruct (key =? "ArrowUp")%string;
      [|destruct (key =? "ArrowDown")%string;
        [|destruct (key =? "ArrowLeft")%string;
          [|destruct (key =? "ArrowRight")%string]]];
      (split; [exact Hon | reflexivity]).
  - destruct ((negb (isPlaying s) && negb (gameOver s)) || gameOver s);
      [|exact Hsame].
    intros H.
    apply startGame_facts in H as (c & l & p3 & k3 & Hfood & Hc & Hobs & ->).
    assert (Hw1 : 1 <= width (gridSize s)) by lia.
    assert (Hh1 : 1 <= height (gridSize s)) by lia.
    apply generateFood_inGrid in Hfood; try assumption.
    destruct (generateObstacles_batch random _ _ _ _ _ _ Hr Hw1 Hh1 Hobs)
      as (_ & _ & Hin & _).
    subst c. simpl in Hin. unfold onGrid. simpl.
    split; [|reflexivity]. split; [|split; assumption].
    constructor; [|constructor]. unfold inGrid. simpl. lia.
  - destruct (isPlaying s); [|exact Hsame].
    unfold ret. intros H. injection H as <- <-.
    split; [exact Hon | reflexivity].
  - destruct (negb (isPlaying s) && negb (gameOver s) && (0 <? score s));
      [|exact Hsame].
    unfold ret. intros H. injection H as <- <-.
    split; [exact Hon | reflexivity].
  - unfold ret. intros H. injection H as <- <-.
    split; [exact Hon | reflexivity].
  - exfalso. exact (He clientWidth clientHeight eq_refl).
Qed.

(** X19: in a game area less than 220 pixels wide or high the grid has at
    most 10 columns or rows, and a start that returns puts the snake on
    (10,10) all the same: off the grid, and drawn beyond the edge of the
    area. *)
Theorem start_in_small_area
        (fuel : nat) (clientWidth clientHeight : Z) (s0 : State) (k : nat)
        (s' : State) (k' : nat) :
  clientWidth < 220 \/ clientHeight < 220 ->
  startGame random fuel (calculateGridSize clientWidth clientHeight s0)
            (calculateGridSize clientWidth clientHeight s0) k
  = Some (s', k') ->
  snake s' = [mkCell 10 10]
  /\ ~ inGrid (gridSize s') (mkCell 10 10)
  /\ (clientWidth < styleLeft (mkCell 10 10) + CELL_SIZE
      \/ clientHeight < styleTop (mkCell 10 10) + CELL_SIZE).
Proof.
  intros Hsmall H.
  apply startGame_facts in H as (c & l & p3 & k3 & _ & _ & _ & ->).
  split; [reflexivity|]. split.
  - unfold inGrid, calculateGridSize, CELL_SIZE. simpl.
    intros [[_ Hx] [_ Hy]].
    pose proof (Z.div_mod clientWidth 20 ltac:(lia)).
    pose proof (Z.mod_pos_bound clientWidth 20 ltac:(lia)).
    pose proof (Z.div_mod clientHeight 20 ltac:(lia)).
    pose proof (Z.mod_pos_bound clientHeight 20 ltac:(lia)).
    lia.
  - unfold styleLeft, styleTop, CELL_SIZE. simpl. lia.
Qed.

End OnGrid.

Lemma randomMilestone_unitInterval : unitInterval randomMilestone.
Proof.
  apply randomOf_unitInterval. repeat (constructor; [lia|]). constructor.
Qed.

Lemma events_keep_on_grid_witness :
  unitInterval randomMilestone
  /\ 10 < width (gridSize atScore5) /\ 10 < height (gridSize atScore5)
  /\ onGrid atScore5
  /\ (forall clientWidth clientHeight, Tick <> Resize clientWidth clientHeight)
  /\ step randomMilestone 5 Tick atScore5 32%nat = Some (atScore6, 54%nat)
  /\ onGrid atScore6.
Proof.
  assert (Hw : 10 < width (gridSize atScore5)) by (simpl; lia).
  assert (Hh : 10 < height (gridSize atScore5)) by (simpl; lia).
  assert (Hon : onGrid atScore5).
  { unfold onGrid. simpl snake. simpl food. simpl obstacles. simpl gridSize.
    split; [|split].
    - repeat (constructor; [unfold inGrid; simpl; lia|]). constructor.
    - unfold inGrid; simpl; lia.
    - unfold bottomRow.
      repeat (constructor; [unfold inGrid; simpl; lia|]). constructor. }
  assert (He : forall clientWidth clientHeight,
             Tick <> Resize clientWidth clientHeight) by discriminate.
  split; [exact randomMilestone_unitInterval|].
  split; [exact Hw|]. split; [exact Hh|]. split; [exact Hon|].
  split; [exact He|]. split; [reflexivity|].
  exact (proj1 (events_keep_on_grid randomMilestone 5 Tick atScore5 32
                  atScore6 54 randomMilestone_unitInterval Hw Hh Hon He
                  eq_refl)).
Defined.

Lemma start_in_small_area_witness :
  (200 < 220 \/ 400 < 220)
  /\ calculateGridSize 200 400 initialState = slim
  /\ startGame randomSlim 5 (calculateGridSize 200 400 initialState)
               (calculateGridSize 200 400 initialState) 0%nat
     = Some (slimStarted, 22%nat)
  /\ snake slimStarted = [mkCell 10 10]
  /\ ~ inGrid (gridSize slimStarted) (mkCell 10 10).
Proof.
  assert (H : 200 < 220 \/ 400 < 220) by (left; lia).
  pose proof (start_in_small_area randomSlim 5 200 400 initialState 0
                slimStarted 22 H eq_refl) as (Hs & Hn & _).
  split; [exact H|]. split; [reflexivity|]. split; [reflexivity|].
  split; [exact Hs | exact Hn].
Defined.

(** ** Food that a resize left outside the grid *)

Section Stranded.

Variable random : nat -> Q.

Lemma stranded_step (fuel : nat) (e : Event) (s : State) (k : nat)
      (s' : State) (k' : nat) :
  1 <= width (gridSize s) -> 1 <= height (gridSize s) ->
  ~ inGrid (gridSize s) (food s) ->
  tickOrKey e ->
  step random fuel e s k = Some (s', k') ->
  score s' = score s /\ food s' = food s /\ gridSize s' = gridSize s /\ k' = k.
Proof.
  intros Hw Hh Hout [-> | [key ->]]; simpl.
  - destruct (isPlaying s).
    2:{ unfold ret. intros H. injection H as <- <-. auto. }
    intros H. apply moveSnake_cases in H
      as [(_ & -> & ->) | (first & rest & head & _ & Hh' & Hcase)]; [auto|].
    destruct Hcase as [(_ & -> & ->)
                      | [(_ & _ & -> & ->) | (_ & Hf & _)]]; auto.
    exfalso. apply sameCell_eq in Hf. apply Hout. rewrite <- Hf, Hh'.
    now apply newHead_lands_on_grid.
  - destruct (isPlaying s); unfold ret; intros H; injection H as <- <-; auto.
    destruct (handleKeyPress_frame key s) as (_ & -> & _ & -> & _).
    repeat split. unfold handleKeyPress.
    destruct (key =? "ArrowUp")%string;
      [|destruct (key =? "ArrowDown")%string;
        [|destruct (key =? "ArrowLeft")%string;
          [|destruct (key =? "ArrowRight")%string]]];
      reflexivity.
Qed.

(** X20: food that is outside the grid (as after the window was made
    smaller) is never eaten: through any ticks and key presses the score and
    the food stay as they are and no random number is drawn, because the head
    of every tick is wrapped into the grid. *)
Theorem food_off_grid_is_never_eaten
        (fuel : nat) (events : list Event) (s : State) (k : nat)
        (s' : State) (k' : nat) :
  1 <= width (gridSize s) -> 1 <= height (gridSize s) ->
  ~ inGrid (gridSize s) (food s) ->
  Forall tickOrKey events ->
  run random fuel events s k = Some (s', k') ->
  score s' = score s /\ food s' = food s /\ k' = k.
Proof.
  intros Hw Hh Hout Hall. revert s k Hw Hh Hout.
  induction Hall as [|e events He _ IH]; intros s k Hw Hh Hout; simpl.
  - unfold ret. intros H. injection H as <- <-. auto.
  - unfold bind. destruct (step random fuel e s k) as [[s1 k1]|] eqn:E;
      [|discriminate].
    destruct (stranded_step fuel e s k s1 k1 Hw Hh Hout He E)
      as (Hsc & Hfd & Hg & ->).
    intros H. apply IH in H; rewrite ?Hg, ?Hfd; try assumption.
    destruct H as (-> & -> & ->). auto.
Qed.

End Stranded.

Lemma food_off_grid_is_never_eaten_witness :
  1 <= width (gridSize stranded) /\ 1 <= height (gridSize stranded)
  /\ ~ inGrid (gridSize stranded) (food stranded)
  /\ Forall tickOrKey [Tick; KeyDown "ArrowUp"; Tick]
  /\ run stuck 0 [Tick; KeyDown "ArrowUp"; Tick] stranded 0%nat
     = Some (strandedLater, 0%nat)
  /\ score strandedLater = score stranded
  /\ food strandedLater = food stranded.
Proof.
  assert (Hw : 1 <= width (gridSize stranded)) by (simpl; lia).
  assert (Hh : 1 <= height (gridSize stranded)) by (simpl; lia).
  assert (Hout : ~ inGrid (gridSize stranded) (food stranded))
    by (unfold inGrid; simpl; lia).
  assert (Hall : Forall tickOrKey [Tick; KeyDown "ArrowUp"; Tick]).
  { constructor; [now left|]. constructor; [right; now exists "ArrowUp"%string|].
    constructor; [now left|]. constructor. }
  pose proof (food_off_grid_is_never_eaten stuck 0 _ stranded 0 strandedLater 0
                Hw Hh Hout Hall eq_refl) as (Hsc & Hfd & _).
  split; [exact Hw|]. split; [exact Hh|]. split; [exact Hout|].
  split; [exact Hall|]. split; [reflexivity|].
  split; [exact Hsc | exact Hfd].
Defined.

(** ** The body follows the head *)

Lemma nth_removelast (l : list Cell) (d : Cell) (i : nat) :
  (S i < List.length l)%nat -> nth i (removelast l) d = nth i l d.
Proof.
  revert i. induction l as [|a l IH]; intros i Hi; [simpl in Hi; lia|].
  destruct l as [|b l]; [simpl in Hi; lia|].
  change (removelast (a :: b :: l)) with (a :: removelast (b :: l)).
  destruct i as [|i]; [reflexivity|].
  simpl nth. apply IH. simpl in *. lia.
Qed.

(** X21: on a tick that neither collides nor reaches the food the snake
    moves as a chain: its first cell is the new head and every other cell
    takes the place the cell in front of it had before the tick. *)
Theorem body_follows_head
        (random : nat -> Q) (fuel : nat) (s : State) (k : nat)
        (first : Cell) (rest : list Cell) (s' : State) (k' : nat)
        (i : nat) (d : Cell) :
  snake s = first :: rest ->
  ~ In (newHead (gridSize s) (direction s) first) (obstacles s) ->
  ~ In (newHead (gridSize s) (direction s) first) (snake s) ->
  newHead (gridSize s) (direction s) first <> food s ->
  moveSnake random fuel s s k = Some (s', k') ->
  (S i < List.length (snake s))%nat ->
  nth 0 (snake s') d = newHead (gridSize s) (direction s) first
  /\ nth (S i) (snake s') d = nth i (snake s) d.
Proof.
  intros Hs Ho Hn Hf H Hi.
  rewrite (moveSnake_quiet random fuel s k first rest Hs) in H.
  - assert (Hs' : snake s'
                  = removelast (newHead (gridSize s) (direction s) first
                                :: snake s)).
    { assert (E : s' = setSnake
                         (removelast (newHead (gridSize s) (direction s) first
                                      :: snake s)) s) by congruence.
      rewrite E. reflexivity. }
    rewrite Hs', !nth_removelast by (simpl; lia). split; reflexivity.
  - now apply collides_free.
  - destruct (sameCell _ (food s)) eqn:E; [|reflexivity].
    apply sameCell_eq in E. contradiction.
Qed.

Lemma body_follows_head_witness :
  snake straight = mkCell 10 10 :: [mkCell 9 10; mkCell 8 10]
  /\ ~ In (newHead (gridSize straight) (direction straight) (mkCell 10 10))
          (obstacles straight)
  /\ ~ In (newHead (gridSize straight) (direction straight) (mkCell 10 10))
          (snake straight)
  /\ newHead (gridSize straight) (direction straight) (mkCell 10 10)
     <> food straight
  /\ moveSnake stuck 0 straight straight 0%nat
     = Some (setSnake [mkCell 11 10; mkCell 10 10; mkCell 9 10] straight, 0%nat)
  /\ (2 < List.length (snake straight))%nat
  /\ nth 2 [mkCell 11 10; mkCell 10 10; mkCell 9 10] (mkCell 0 0)
     = nth 1 (snake straight) (mkCell 0 0).
Proof.
  assert (Ho : ~ In (newHead (gridSize straight) (direction straight)
                             (mkCell 10 10)) (obstacles straight)).
  { simpl. intros H.
    repeat (destruct H as [H|H]; [discriminate H|]). exact H. }
  assert (Hn : ~ In (newHead (gridSize straight) (direction straight)
                             (mkCell 10 10)) (snake straight)).
  { simpl. intros H.
    repeat (destruct H as [H|H]; [discriminate H|]). exact H. }
  assert (Hf : newHead (gridSize straight) (direction straight) (mkCell 10 10)
               <> food straight) by discriminate.
  assert (Hi : (2 < List.length (snake straight))%nat) by (simpl; lia).
  split; [reflexivity|]. split; [exact Ho|]. split; [exact Hn|].
  split; [exact Hf|]. split; [reflexivity|]. split; [exact Hi|].
  exact (proj2 (body_follows_head stuck 0 straight 0 (mkCell 10 10)
                  [mkCell 9 10; mkCell 8 10] _ 0 1 (mkCell 0 0)
                  eq_refl Ho Hn Hf eq_refl Hi)).
Defined.
